(** * Gemini watermark remover: the reverse-blend engine

    A shallow embedding of package [watermark] (engine.go, alphamap.go,
    assets.go) and the properties its specification states about it.

    - Go's [int] is a 64-bit two's complement integer: a [Z] wrapped by
      [wrap64] after every arithmetic operation.
    - [float32] and [float64] are IEEE 754 binary32 and binary64 values,
      modelled by [spec_float] with the operations of [SpecFloat]
      (round to nearest, ties to even, no fused multiply-add).
    - Images live in a heap of pixel buffers, so that allocation of the
      result and writes to it are explicit. *)

From Stdlib Require Import ZArith Lia Bool.
From Stdlib Require Import Floats.SpecFloat.
From stdpp Require Import base tactics option list list_numbers.

Local Open Scope Z_scope.

(** ** Machine integers *)

Module GoInt.

(** Two's complement wrap-around of a 64-bit signed integer. *)
Definition wrap64 (z : Z) : Z := (z + 2 ^ 63) mod 2 ^ 64 - 2 ^ 63.

Definition in_int (z : Z) : Prop := - 2 ^ 63 <= z < 2 ^ 63.

Definition add (a b : Z) : Z := wrap64 (a + b).
Definition sub (a b : Z) : Z := wrap64 (a - b).
Definition mul (a b : Z) : Z := wrap64 (a * b).

(** Conversion to [uint8] keeps the low eight bits. *)
Definition uint8 (z : Z) : Z := z mod 256.

End GoInt.

(** ** Geometry: package [image] points and rectangles *)

Record Point := mkPoint { X : Z; Y : Z }.

Record Rectangle := mkRectangle { Min : Point; Max : Point }.

(** [image.Rect]: the rectangle with the given corners, put in canonical
    order. *)
Definition Rect (x0 y0 x1 y1 : Z) : Rectangle :=
  let '(x0, x1) := if x1 <? x0 then (x1, x0) else (x0, x1) in
  let '(y0, y1) := if y1 <? y0 then (y1, y0) else (y0, y1) in
  mkRectangle (mkPoint x0 y0) (mkPoint x1 y1).

Definition Dx (r : Rectangle) : Z := GoInt.sub (X (Max r)) (X (Min r)).
Definition Dy (r : Rectangle) : Z := GoInt.sub (Y (Max r)) (Y (Min r)).

(** [Point.In]: the rectangle contains its minimum but not its maximum. *)
Definition PointIn (x y : Z) (r : Rectangle) : bool :=
  (X (Min r) <=? x) && (x <? X (Max r)) && (Y (Min r) <=? y) && (y <? Y (Max r)).

(** ** Watermark configuration *)

Record WatermarkConfig := mkConfig { Size : Z; Margin : Z }.

Definition DetectConfig (width height : Z) : WatermarkConfig :=
  if (1024 <? width) && (1024 <? height)
  then mkConfig 96 64
  else mkConfig 48 32.

Definition CalculatePosition (imgWidth imgHeight : Z) (config : WatermarkConfig)
  : Rectangle :=
  let x := GoInt.sub (GoInt.sub imgWidth (Margin config)) (Size config) in
  let y := GoInt.sub (GoInt.sub imgHeight (Margin config)) (Size config) in
  Rect x y (GoInt.add x (Size config)) (GoInt.add y (Size config)).


(** ** Floating point

    [float32] and [float64] values are [spec_float]s; every operation
    rounds to nearest, ties to even, at the precision of its type. *)

Module F32.
Definition prec : Z := 24.
Definition emax : Z := 128.
Abbreviation t := spec_float.
Definition of_Z (z : Z) : t := binary_normalize prec emax z 0 false.
Definition div : t -> t -> t := SFdiv prec emax.
Definition ltb : t -> t -> bool := SFltb.
Definition leb : t -> t -> bool := SFleb.
(** An untyped constant [n / d] converted to [float32]: the exact
    quotient, rounded once. *)
Definition const (n d : Z) : t := div (of_Z n) (of_Z d).
End F32.

Module F64.
Definition prec : Z := 53.
Definition emax : Z := 1024.
Abbreviation t := spec_float.
Definition of_Z (z : Z) : t := binary_normalize prec emax z 0 false.
Definition sub : t -> t -> t := SFsub prec emax.
Definition mul : t -> t -> t := SFmul prec emax.
Definition div : t -> t -> t := SFdiv prec emax.
Definition ltb : t -> t -> bool := SFltb.
Definition leb : t -> t -> bool := SFleb.
Definition const (n d : Z) : t := div (of_Z n) (of_Z d).

(** [float64(x)] for a [float32] [x]: the same number, renormalized. *)
Definition of_f32 (x : F32.t) : t :=
  match x with
  | S754_finite s m e => binary_normalize prec emax (cond_Zopp s (Zpos m)) e s
  | _ => x
  end.

(** Conversion to an integer truncates towards zero.  Go leaves the
    conversion of NaN and infinities to the implementation; they are
    sent to zero here. *)
Definition trunc (x : t) : Z :=
  match x with
  | S754_finite s m e =>
      cond_Zopp s (match e with
                   | Zneg p => Z.shiftr (Zpos m) (Zpos p)
                   | _ => Z.shiftl (Zpos m) e
                   end)
  | _ => 0
  end.

Definition is_finite (x : t) : bool :=
  match x with
  | S754_zero _ | S754_finite _ _ _ => true
  | _ => false
  end.
End F64.

(** Algorithm constants. *)
Definition AlphaThreshold : F32.t := F32.const 2 1000.
Definition MaxAlpha : F32.t := F32.const 99 100.
Definition LogoValue : F64.t := F64.of_Z 255.

(** [clamp] restricts a value to the range [min, max]. *)
Definition clamp (value min max : F64.t) : F64.t :=
  if F64.ltb value min then min
  else if F64.ltb max value then max
  else value.

(** ** Colours and pixel buffers *)

Module color.

(** [color.RGBA]: four [uint8] channels, alpha-premultiplied. *)
Record RGBA := mkRGBA { R : Z; G : Z; B : Z; A : Z }.

(** What [Color.RGBA()] returns: four [uint32] values. *)
Record Color := mkColor { r : Z; g : Z; b : Z; a : Z }.

Definition zero : RGBA := mkRGBA 0 0 0 0.

(** [color.RGBA.RGBA()]: each channel [c] becomes [c | c << 8]. *)
Definition RGBA_RGBA (c : RGBA) : Color :=
  let w v := Z.lor v (Z.shiftl v 8) in
  mkColor (w (R c)) (w (G c)) (w (B c)) (w (A c)).

(** The conversion [draw.Draw] applies when it stores a colour in an
    [image.RGBA]: the high byte of each channel. *)
Definition toRGBA (c : Color) : RGBA :=
  mkRGBA (GoInt.uint8 (Z.shiftr (r c) 8)) (GoInt.uint8 (Z.shiftr (g c) 8))
         (GoInt.uint8 (Z.shiftr (b c) 8)) (GoInt.uint8 (Z.shiftr (a c) 8)).

End color.

Module image.

(** [image.RGBA], with the byte slice [Pix] grouped into pixels: one
    entry per pixel, row after row, [Stride] entries per row. *)
Record RGBA := mkRGBA { Pix : list color.RGBA; Stride : Z; Rect : Rectangle }.

Definition PixOffset (p : RGBA) (x y : Z) : Z :=
  (y - Y (Min (Rect p))) * Stride p + (x - X (Min (Rect p))).

(** [RGBA.RGBAAt]: the zero colour outside the rectangle. *)
Definition RGBAAt (p : RGBA) (x y : Z) : color.RGBA :=
  if PointIn x y (Rect p)
  then default color.zero (Pix p !! Z.to_nat (PixOffset p x y))
  else color.zero.

(** [RGBA.SetRGBA]: nothing happens outside the rectangle. *)
Definition SetRGBA (p : RGBA) (x y : Z) (c : color.RGBA) : RGBA :=
  if PointIn x y (Rect p)
  then mkRGBA (<[Z.to_nat (PixOffset p x y) := c]> (Pix p)) (Stride p) (Rect p)
  else p.

(** [image.NewRGBA]: a zeroed buffer of the rectangle's size. *)
Definition NewRGBA (r : Rectangle) : RGBA :=
  mkRGBA (replicate (Z.to_nat (Dx r * Dy r)) color.zero) (Dx r) r.

End image.

(** ** The heap and the images in it *)

(** The mutable pixel buffers of the program, addressed by position. *)
Abbreviation Heap := (list image.RGBA).

(** An [image.Image]: a pointer to a buffer of the heap, or any other
    implementation of the interface, given by its two methods. *)
Inductive Image :=
| RGBARef (l : nat)
| Other (bounds : Rectangle) (at_ : Z -> Z -> color.Color).

(** Computations that read and write the heap and may panic. *)
Definition M (T : Type) : Type := Heap -> option (T * Heap).

Definition ret {T} (v : T) : M T := fun h => Some (v, h).

Definition bind {T U} (c : M T) (k : T -> M U) : M U :=
  fun h => match c h with
           | Some (v, h') => k v h'
           | None => None
           end.

Definition panic {T} : M T := fun _ => None.

Notation "x <- c ;; k" := (bind c (fun x => k))
  (at level 100, c at next level, k at level 200, right associativity).
Notation "c ;;; k" := (bind c (fun _ => k))
  (at level 100, k at level 200, right associativity).

(** A [for] loop over the values of [l] that threads the variables [s]
    the body assigns. *)
Fixpoint foldM {S T} (body : S -> T -> M S) (s : S) (l : list T) : M S :=
  match l with
  | [] => ret s
  | i :: l' => s' <- body s i;; foldM body s' l'
  end.

Definition forM_ {T} (l : list T) (body : T -> M unit) : M unit :=
  foldM (fun _ i => body i) tt l.

Definition deref (l : nat) : M image.RGBA :=
  fun h => match h !! l with
           | Some p => Some (p, h)
           | None => None
           end.

Definition assign (l : nat) (p : image.RGBA) : M unit :=
  fun h => if decide (l < length h)%nat then Some (tt, <[l := p]> h) else None.

Definition alloc (p : image.RGBA) : M nat :=
  fun h => Some (length h, h ++ [p]).

Definition Bounds (img : Image) : M Rectangle :=
  match img with
  | RGBARef l => p <- deref l;; ret (image.Rect p)
  | Other bounds _ => ret bounds
  end.

Definition At (img : Image) (x y : Z) : M color.Color :=
  match img with
  | RGBARef l => p <- deref l;; ret (color.RGBA_RGBA (image.RGBAAt p x y))
  | Other _ at_ => ret (at_ x y)
  end.

Definition NewRGBA (r : Rectangle) : M nat := alloc (image.NewRGBA r).

Definition RGBAAt (l : nat) (x y : Z) : M color.RGBA :=
  p <- deref l;; ret (image.RGBAAt p x y).

Definition SetRGBA (l : nat) (x y : Z) (c : color.RGBA) : M unit :=
  p <- deref l;; assign l (image.SetRGBA p x y c).

(** [draw.Draw(dst, r, src, sp, draw.Src)] for an [image.RGBA]
    destination: every pixel of [r] inside [dst] is replaced by the
    source pixel at the same offset from [sp]. *)
Definition Draw (dst : nat) (r : Rectangle) (src : Image) (sp : Point) : M unit :=
  forM_ (seqZ (Y (Min r)) (Dy r)) (fun y =>
    forM_ (seqZ (X (Min r)) (Dx r)) (fun x =>
      c <- At src (X sp + (x - X (Min r))) (Y sp + (y - Y (Min r)));;
      SetRGBA dst x y (color.toRGBA c))).

(** Indexing a slice panics out of range. *)
Definition index {T} (s : list T) (i : Z) : M T :=
  if i <? 0 then panic
  else match s !! Z.to_nat i with
       | Some v => ret v
       | None => panic
       end.

Definition store {T} (s : list T) (i : Z) (v : T) : M (list T) :=
  if (i <? 0) || (Z.of_nat (length s) <=? i) then panic
  else ret (<[Z.to_nat i := v]> s).

Definition make {T} (zero : T) (n : Z) : M (list T) :=
  if n <? 0 then panic else ret (replicate (Z.to_nat n) zero).

(** ** The engine *)

Record Engine := mkEngine { alphaMap48 : list F32.t; alphaMap96 : list F32.t }.

(** The body of the inner loop of [RemoveWatermark], for the watermark
    pixel [(row, col)]. *)
Definition removePixel (result : nat) (width height : Z) (config : WatermarkConfig)
    (position : Rectangle) (alphaMap : list F32.t) (row col : Z) : M unit :=
  let imgX := GoInt.add (X (Min position)) col in
  let imgY := GoInt.add (Y (Min position)) row in
  if (imgX <? 0) || (imgY <? 0) || (width <=? imgX) || (height <=? imgY)
  then ret tt
  else
    let alphaIdx := GoInt.add (GoInt.mul row (Size config)) col in
    alpha <- index alphaMap alphaIdx;;
    if F32.ltb alpha AlphaThreshold then ret tt
    else
      let alpha := if F32.ltb MaxAlpha alpha then MaxAlpha else alpha in
      let oneMinusAlpha := F64.sub (F64.of_Z 1) (F64.of_f32 alpha) in
      c <- RGBAAt result imgX imgY;;
      let rgba := color.RGBA_RGBA c in
      let watermarkedR := F64.of_Z (Z.shiftr (color.r rgba) 8) in
      let watermarkedG := F64.of_Z (Z.shiftr (color.g rgba) 8) in
      let watermarkedB := F64.of_Z (Z.shiftr (color.b rgba) 8) in
      let alphaF := F64.of_f32 alpha in
      let originalR := F64.div (F64.sub watermarkedR (F64.mul alphaF LogoValue)) oneMinusAlpha in
      let originalG := F64.div (F64.sub watermarkedG (F64.mul alphaF LogoValue)) oneMinusAlpha in
      let originalB := F64.div (F64.sub watermarkedB (F64.mul alphaF LogoValue)) oneMinusAlpha in
      let originalR := clamp originalR (F64.of_Z 0) (F64.of_Z 255) in
      let originalG := clamp originalG (F64.of_Z 0) (F64.of_Z 255) in
      let originalB := clamp originalB (F64.of_Z 0) (F64.of_Z 255) in
      SetRGBA result imgX imgY
        (color.mkRGBA (GoInt.uint8 (F64.trunc originalR))
                      (GoInt.uint8 (F64.trunc originalG))
                      (GoInt.uint8 (F64.trunc originalB))
                      (GoInt.uint8 (Z.shiftr (color.a rgba) 8))).

Definition RemoveWatermark (e : Engine) (img : Image) : M Image :=
  bounds <- Bounds img;;
  let width := Dx bounds in
  let height := Dy bounds in
  result <- NewRGBA bounds;;
  Draw result bounds img (Min bounds);;;
  let config := DetectConfig width height in
  let position := CalculatePosition width height config in
  let alphaMap := if Size config =? 96 then alphaMap96 e else alphaMap48 e in
  forM_ (seqZ 0 (Size config)) (fun row =>
    forM_ (seqZ 0 (Size config)) (fun col =>
      removePixel result width height config position alphaMap row col));;;
  ret (RGBARef result).

(** ** Alpha maps *)

Definition CalculateAlphaMap (img : Image) : M (list F32.t) :=
  bounds <- Bounds img;;
  let width := Dx bounds in
  let height := Dy bounds in
  alphaMap <- make (S754_zero false) (GoInt.mul width height);;
  foldM (fun alphaMap y =>
    foldM (fun alphaMap x =>
      c <- At img (GoInt.add (X (Min bounds)) x) (GoInt.add (Y (Min bounds)) y);;
      let r8 := Z.shiftr (color.r c) 8 in
      let g8 := Z.shiftr (color.g c) 8 in
      let b8 := Z.shiftr (color.b c) 8 in
      let maxChannel := r8 in
      let maxChannel := if maxChannel <? g8 then g8 else maxChannel in
      let maxChannel := if maxChannel <? b8 then b8 else maxChannel in
      store alphaMap (GoInt.add (GoInt.mul y width) x)
            (F32.div (F32.of_Z maxChannel) (F32.of_Z 255)))
      alphaMap (seqZ 0 width))
    alphaMap (seqZ 0 height).

(** ** Reference assets *)

Inductive error :=
| DecodeError (code : Z)
| Wrapped (size : Z) (err : error).

Section Assets.

(** The embedded PNG files and the decoder of package [png] are not
    part of the sources: they are parameters. *)
Variable bg48PNG bg96PNG : list Z.
Variable png_Decode : list Z -> Image + error.

Definition LoadReferenceImage (size : Z) : Image + error :=
  let data :=
    if size =? 96 then bg96PNG
    else if size =? 48 then bg48PNG
    else bg48PNG in
  png_Decode data.

Definition NewEngine : M (Engine + error) :=
  match LoadReferenceImage 48 with
  | inr err => ret (inr (Wrapped 48 err))
  | inl img48 =>
      alphaMap48 <- CalculateAlphaMap img48;;
      match LoadReferenceImage 96 with
      | inr err => ret (inr (Wrapped 96 err))
      | inl img96 =>
          alphaMap96 <- CalculateAlphaMap img96;;
          ret (inl (mkEngine alphaMap48 alphaMap96))
      end
  end.

End Assets.

(** ** Vocabulary of the specification *)

(** A rectangle an image can have: ordered corners and sides that fit
    an [int], as its coordinates do. *)
Definition valid_rect (r : Rectangle) : Prop :=
  X (Min r) <= X (Max r) /\ Y (Min r) <= Y (Max r)
  /\ X (Max r) - X (Min r) < 2 ^ 63 /\ Y (Max r) - Y (Min r) < 2 ^ 63
  /\ GoInt.in_int (X (Min r)) /\ GoInt.in_int (X (Max r))
  /\ GoInt.in_int (Y (Min r)) /\ GoInt.in_int (Y (Max r)).

(** A buffer holds one pixel per point of its rectangle. *)
Definition wf_buf (p : image.RGBA) : Prop :=
  X (Min (image.Rect p)) <= X (Max (image.Rect p))
  /\ Y (Min (image.Rect p)) <= Y (Max (image.Rect p))
  /\ image.Stride p = X (Max (image.Rect p)) - X (Min (image.Rect p))
  /\ length (image.Pix p) =
     Z.to_nat ((X (Max (image.Rect p)) - X (Min (image.Rect p)))
               * (Y (Max (image.Rect p)) - Y (Min (image.Rect p)))).

(** [img] is an image of the heap [h] with bounds [bounds]. *)
Definition valid_image (h : Heap) (img : Image) (bounds : Rectangle) : Prop :=
  Bounds img h = Some (bounds, h) /\ valid_rect bounds.

(** The colour [img.At(x, y).RGBA()] reads in the heap [h]. *)
Definition pixelOf (h : Heap) (img : Image) (x y : Z) : color.Color :=
  match img with
  | RGBARef l =>
      match h !! l with
      | Some p => color.RGBA_RGBA (image.RGBAAt p x y)
      | None => color.mkColor 0 0 0 0
      end
  | Other _ at_ => at_ x y
  end.

(** The input pixel as the engine sees it: eight bits per channel. *)
Definition pixel8 (h : Heap) (img : Image) (x y : Z) : color.RGBA :=
  color.toRGBA (pixelOf h img x y).

(** The alpha used in the division: [min(alpha, MaxAlpha)]. *)
Definition clampAlpha (alpha : F32.t) : F32.t :=
  if F32.ltb MaxAlpha alpha then MaxAlpha else alpha.

(** The denominator [1 - a] of the reverse blend. *)
Definition oneMinusAlpha (alpha : F32.t) : F64.t :=
  F64.sub (F64.of_Z 1) (F64.of_f32 (clampAlpha alpha)).

(** The quotient [(watermarked - a * 255) / (1 - a)]. *)
Definition blendQuotient (alpha : F32.t) (watermarked : Z) : F64.t :=
  F64.div (F64.sub (F64.of_Z watermarked)
                   (F64.mul (F64.of_f32 (clampAlpha alpha)) (F64.of_Z 255)))
          (oneMinusAlpha alpha).

(** The reverse blend of one channel, as the specification writes it:
    [clamp((watermarked - a * 255) / (1 - a), 0, 255)] truncated to an
    eight-bit integer, with [a = min(alpha, MaxAlpha)]. *)
Definition reverseBlend (alpha : F32.t) (watermarked : Z) : Z :=
  GoInt.uint8
    (F64.trunc (clamp (blendQuotient alpha watermarked) (F64.of_Z 0) (F64.of_Z 255))).

(** The alpha value of a reference pixel whose brightest channel is [k]. *)
Definition alphaOf (k : Z) : F32.t := F32.div (F32.of_Z k) (F32.of_Z 255).

(** An engine whose alpha maps have one entry per watermark pixel. *)
Definition wf_engine (e : Engine) : Prop :=
  Z.of_nat (length (alphaMap48 e)) = 2304
  /\ Z.of_nat (length (alphaMap96 e)) = 9216.

(** The alpha map [RemoveWatermark] selects for an image of the given
    size, and its entry for the watermark pixel [(row, col)]. *)
Definition selectedMap (e : Engine) (width height : Z) : list F32.t :=
  if Size (DetectConfig width height) =? 96 then alphaMap96 e else alphaMap48 e.

Definition alphaAt (e : Engine) (width height row col : Z) : F32.t :=
  default S754_nan
    (selectedMap e width height
       !! Z.to_nat (row * Size (DetectConfig width height) + col)).

(** The pixel [RemoveWatermark] writes over a pixel whose [RGBA()]
    values are [rgba], and the same pixel in terms of the eight-bit
    channels of the pixel read. *)
Definition blendColor (alpha : F32.t) (rgba : color.Color) : color.RGBA :=
  color.mkRGBA (reverseBlend alpha (Z.shiftr (color.r rgba) 8))
               (reverseBlend alpha (Z.shiftr (color.g rgba) 8))
               (reverseBlend alpha (Z.shiftr (color.b rgba) 8))
               (GoInt.uint8 (Z.shiftr (color.a rgba) 8)).

Definition restorePixel (alpha : F32.t) (c : color.RGBA) : color.RGBA :=
  color.mkRGBA (reverseBlend alpha (color.R c)) (reverseBlend alpha (color.G c))
               (reverseBlend alpha (color.B c)) (color.A c).

(** The bounds test of the inner loop. *)
Definition outside (width height imgX imgY : Z) : bool :=
  (imgX <? 0) || (imgY <? 0) || (width <=? imgX) || (height <=? imgY).

(** A pixel whose four channels are bytes. *)
Definition byte_pixel (c : color.RGBA) : Prop :=
  0 <= color.R c < 256 /\ 0 <= color.G c < 256
  /\ 0 <= color.B c < 256 /\ 0 <= color.A c < 256.

(** The watermark rectangle of an image with the given bounds. *)
Definition watermarkRect (bounds : Rectangle) : Rectangle :=
  CalculatePosition (Dx bounds) (Dy bounds) (DetectConfig (Dx bounds) (Dy bounds)).

(** The brightest of the three colour channels, on eight bits. *)
Definition maxRGB (c : color.Color) : Z :=
  Z.max (Z.max (Z.shiftr (color.r c) 8) (Z.shiftr (color.g c) 8))
        (Z.shiftr (color.b c) 8).

(** A colour whose [RGBA()] values are in [[0, 0xffff]], as the
    [color.Color] interface asks. *)
Definition color16 (c : color.Color) : Prop :=
  0 <= color.r c <= 65535 /\ 0 <= color.g c <= 65535
  /\ 0 <= color.b c <= 65535 /\ 0 <= color.a c <= 65535.

(** An alpha value between zero and one. *)
Definition unit_interval (a : F32.t) : bool :=
  F32.leb (F32.of_Z 0) a && F32.leb a (F32.of_Z 1).

(** The checks on one reverse blend: the clamped alpha is at most
    [MaxAlpha], the denominator is finite, positive and at least
    [1 - MaxAlpha], the quotient is finite and the clamped quotient
    truncates to a byte. *)
Definition blendChecks (alpha : F32.t) (watermarked : Z) : bool :=
  let d := oneMinusAlpha alpha in
  let q := blendQuotient alpha watermarked in
  let t := F64.trunc (clamp q (F64.of_Z 0) (F64.of_Z 255)) in
  F32.leb (clampAlpha alpha) MaxAlpha
  && F64.leb (F64.sub (F64.of_Z 1) (F64.of_f32 MaxAlpha)) d
  && F64.ltb (F64.of_Z 0) d
  && F64.is_finite d && F64.is_finite q
  && (0 <=? t) && (t <=? 255).

(** The forward blend the specification inverts,
    [alpha * 255 + (1 - alpha) * original], computed exactly on the
    value of [alpha] and rounded to the nearest integer. *)
Definition forwardBlend (alpha : F32.t) (original : Z) : Z :=
  match alpha with
  | S754_finite false m (Zneg p) =>
      let D := 2 ^ Zpos p in
      (2 * (Zpos m * 255 + (D - Zpos m) * original) + D) / (2 * D)
  | _ => original
  end.

Definition forwardPixel (alpha : F32.t) (c : color.RGBA) : color.RGBA :=
  color.mkRGBA (forwardBlend alpha (color.R c)) (forwardBlend alpha (color.G c))
               (forwardBlend alpha (color.B c)) (color.A c).

(** The synthetic image: the original with the engine's alpha map
    blended over it on the watermark rectangle. *)
Definition watermarked (e : Engine) (bounds : Rectangle)
    (original : Z -> Z -> color.RGBA) : Image :=
  Other bounds
    (fun x y =>
       color.RGBA_RGBA
         (if PointIn x y (watermarkRect bounds)
          then forwardPixel
                 (alphaAt e (Dx bounds) (Dy bounds)
                    (y - Y (Min (watermarkRect bounds)))
                    (x - X (Min (watermarkRect bounds))))
                 (original x y)
          else original x y)).


(** The reverse blends of one alpha value for every channel byte: whether
    the quotient is finite, and the truncated clamp. *)
Definition blendTable (alpha : F32.t) : list (bool * Z) :=
  let a := F64.of_f32 (clampAlpha alpha) in
  let d := F64.sub (F64.of_Z 1) a in
  let p := F64.mul a (F64.of_Z 255) in
  (fun w => let q := F64.div (F64.sub (F64.of_Z w) p) d in
            (F64.is_finite q, F64.trunc (clamp q (F64.of_Z 0) (F64.of_Z 255))))
    <$> seqZ 0 256.

(** The value of a finite floating-point number as a fraction. *)
Definition exactValue (x : spec_float) : Z * Z :=
  match x with
  | S754_finite s m (Zneg p) => (cond_Zopp s (Zpos m), 2 ^ Zpos p)
  | S754_finite s m e => (cond_Zopp s (Zpos m * 2 ^ e), 1)
  | _ => (0, 1)
  end.

(** The clamped and floored quotient [(w - 255 a) / (1 - a)] for the
    fraction [a = n / d]. *)
Definition blendZ (n d w : Z) : Z :=
  if w * d - 255 * n <? 0 then 0
  else if 255 * (d - n) <? w * d - 255 * n then 255
  else (w * d - 255 * n) / (d - n).

(** The reverse blend in exact arithmetic: with [a = n / d] the value of
    the clamped alpha, the floor of the clamp to [[0, 255]] of
    [(w - 255 a) / (1 - a) = (w d - 255 n) / (d - n)]. *)
Definition exactBlend (alpha : F32.t) (w : Z) : Z :=
  let '(n, d) := exactValue (clampAlpha alpha) in
  blendZ n d w.

(** The checks of one alpha value [k / 255] on the table of its reverse
    blends: those of [blendChecks] for every byte and, up to [k = 128],
    those of [roundTripCheck]. *)
Definition blendRowChecks (k : Z) (alpha : F32.t) (table : list (bool * Z)) : bool :=
  let d := oneMinusAlpha alpha in
  F32.leb (clampAlpha alpha) MaxAlpha
  && F64.leb (F64.sub (F64.of_Z 1) (F64.of_f32 MaxAlpha)) d
  && F64.ltb (F64.of_Z 0) d
  && F64.is_finite d
  && forallb (fun ft => fst ft && (0 <=? snd ft) && (snd ft <=? 255)) table
  && (if 128 <? k then true
      else
        let skip := F32.ltb alpha AlphaThreshold in
        forallb (fun o =>
                   let w := forwardBlend alpha o in
                   (0 <=? w) && (w <=? 255)
                   && (if skip then w =? o
                       else Z.abs (GoInt.uint8 (snd (nth (Z.to_nat w) table (false, 0))) - o) <=? 1))
                (seqZ 0 256)).

(** Further checks of one alpha value: which side of the two thresholds
    it lies on, that its clamped value is a fraction below one, and that
    the table agrees with the exact reverse blend. *)
Definition exactRowChecks (k : Z) (alpha : F32.t) (table : list (bool * Z)) : bool :=
  Bool.eqb (F32.ltb alpha AlphaThreshold) (k =? 0)
  && Bool.eqb (F32.ltb MaxAlpha alpha) (253 <=? k)
  && (0 <=? fst (exactValue (clampAlpha alpha)))
  && (fst (exactValue (clampAlpha alpha)) <? snd (exactValue (clampAlpha alpha)))
  && forallb (fun w =>
                GoInt.uint8 (snd (nth (Z.to_nat w) table (false, 0)))
                =? exactBlend alpha w)
             (seqZ 0 256).

(** All the checks of one alpha value, on one table. *)
Definition rowChecks (k : Z) : bool :=
  let alpha := alphaOf k in
  let table := blendTable alpha in
  blendRowChecks k alpha table && exactRowChecks k alpha table.

(** Whether a floating-point value is NaN. *)
Definition isNaN (x : spec_float) : bool :=
  match x with
  | S754_nan => true
  | _ => false
  end.

(** ** Sample data *)

(** An engine whose maps run through all the alpha values, an image
    smaller than the watermark and a buffer of the heap. *)
Definition sampleEngine : Engine :=
  mkEngine ((fun i => alphaOf (i mod 256)) <$> seqZ 0 2304)
           ((fun i => alphaOf (i mod 256)) <$> seqZ 0 9216).

Definition sampleBounds : Rectangle := Rect 0 0 40 36.

Definition sampleImage : Image :=
  Other sampleBounds
        (fun x y => color.mkColor (200 * 257) (100 * 257 + 5) (x * 257) 65535).

Definition sampleHeap : Heap := [image.NewRGBA sampleBounds].

(** A reference image of three by two grey pixels. *)
Definition sampleReference : Image :=
  Other (Rect 0 0 3 2)
        (fun x y =>
           let v := default 0 ([0; 85; 170; 255; 128; 64] !! Z.to_nat (y * 3 + x)) in
           color.mkColor (v * 257) (v * 257) (v * 257) 65535).

(** The same brightest channels under a red tint, with low bytes and a
    translucent alpha channel. *)
Definition tintedReference : Image :=
  Other (Rect 0 0 3 2)
        (fun x y =>
           let v := default 0 ([0; 85; 170; 255; 128; 64] !! Z.to_nat (y * 3 + x)) in
           color.mkColor (v * 256 + 17) (v * 100) 0 32768).



(** The engine of a black reference image: every alpha is zero. *)
Definition blackEngine : Engine :=
  mkEngine (replicate (Z.to_nat 2304) (alphaOf 0))
           (replicate (Z.to_nat 9216) (alphaOf 0)).



(** A decoder that reads the side of a grey square in the first byte. *)
Definition sampleDecode (data : list Z) : Image + error :=
  match data with
  | [n] => inl (Other (Rect 0 0 n n) (fun x y => color.mkColor 0 0 0 65535))
  | _ => inr (DecodeError 0)
  end.

(** A square reference image whose red channel grows with the column
    and whose green channel with the row, and a decoder that hands out
    the small one for the data [[3]] and the large one for [[5]]. *)
Definition rampImage (n : Z) : Image :=
  Other (Rect 0 0 n n) (fun x y => color.mkColor (x * 257) (y * 257) 0 65535).

Definition rampDecode (data : list Z) : Image + error :=
  match data with
  | [3] => inl (rampImage 48)
  | [5] => inl (rampImage 96)
  | _ => inr (DecodeError 1)
  end.

(** * Properties *)

(** ** Machine integers *)

Lemma wrap64_id z : GoInt.in_int z -> GoInt.wrap64 z = z.
Proof.
  unfold GoInt.in_int, GoInt.wrap64. intros H.
  rewrite Z.mod_small; lia.
Qed.

Lemma uint8_range z : 0 <= GoInt.uint8 z < 256.
Proof. unfold GoInt.uint8. apply Z.mod_pos_bound. lia. Qed.

Lemma uint8_id z : 0 <= z < 256 -> GoInt.uint8 z = z.
Proof. unfold GoInt.uint8. intros. apply Z.mod_small. lia. Qed.

Lemma int_add_id a b : GoInt.in_int (a + b) -> GoInt.add a b = a + b.
Proof. apply wrap64_id. Qed.

Lemma int_sub_id a b : GoInt.in_int (a - b) -> GoInt.sub a b = a - b.
Proof. apply wrap64_id. Qed.

Lemma int_mul_id a b : GoInt.in_int (a * b) -> GoInt.mul a b = a * b.
Proof. apply wrap64_id. Qed.

Ltac int_range := unfold GoInt.in_int in *; lia.

(** ** Geometry *)

(** C3. [DetectConfig] answers the large preset exactly when both
    dimensions are strictly above 1024, and the small preset in every
    other case; the boundary pairs (1024,1024), (1025,800) and
    (800,1025) get the small preset. *)
Theorem DetectConfig_presets (width height : Z) :
  (DetectConfig width height = mkConfig 96 64 <-> 1024 < width /\ 1024 < height)
  /\ (DetectConfig width height = mkConfig 48 32 <-> ~ (1024 < width /\ 1024 < height))
  /\ DetectConfig 1024 1024 = mkConfig 48 32
  /\ DetectConfig 1025 800 = mkConfig 48 32
  /\ DetectConfig 800 1025 = mkConfig 48 32
  /\ DetectConfig 1025 1025 = mkConfig 96 64.
Proof.
  unfold DetectConfig.
  destruct (Z.ltb_spec 1024 width), (Z.ltb_spec 1024 height); simpl;
    repeat split; intros; try lia; try congruence; try reflexivity.
Qed.

Lemma Rect_canonical x0 y0 x1 y1 :
  x0 <= x1 -> y0 <= y1 ->
  Rect x0 y0 x1 y1 = mkRectangle (mkPoint x0 y0) (mkPoint x1 y1).
Proof.
  intros Hx Hy. unfold Rect.
  destruct (Z.ltb_spec x1 x0), (Z.ltb_spec y1 y0); try lia. reflexivity.
Qed.

Lemma PointIn_spec x y r :
  PointIn x y r = true <->
  X (Min r) <= x < X (Max r) /\ Y (Min r) <= y < Y (Max r).
Proof.
  unfold PointIn. rewrite !andb_true_iff, !Z.leb_le, !Z.ltb_lt. lia.
Qed.

Lemma CalculatePosition_eq imgW imgH config :
  0 <= imgW < 2 ^ 63 -> 0 <= imgH < 2 ^ 63 ->
  0 <= Size config -> 0 <= Margin config ->
  Margin config + Size config < 2 ^ 63 ->
  CalculatePosition imgW imgH config =
    mkRectangle
      (mkPoint (imgW - Margin config - Size config) (imgH - Margin config - Size config))
      (mkPoint (imgW - Margin config) (imgH - Margin config)).
Proof.
  intros HW HH HS HM HMS. unfold CalculatePosition.
  rewrite !(int_sub_id imgW), !(int_sub_id imgH) by int_range.
  rewrite !int_sub_id by int_range.
  rewrite !int_add_id by int_range.
  rewrite Rect_canonical by lia. f_equal; f_equal; lia.
Qed.

(** C4. [CalculatePosition] returns the square of side [Size] whose
    top-left corner is [(imgW - Margin - Size, imgH - Margin - Size)],
    without clamping: the corner is negative for an image smaller than
    [Margin + Size]. *)
Theorem CalculatePosition_rectangle (imgW imgH : Z) (config : WatermarkConfig) :
  0 <= imgW < 2 ^ 63 -> 0 <= imgH < 2 ^ 63 ->
  0 <= Size config -> 0 <= Margin config ->
  Margin config + Size config < 2 ^ 63 ->
  let x := imgW - Margin config - Size config in
  let y := imgH - Margin config - Size config in
  let position := CalculatePosition imgW imgH config in
  Min position = mkPoint x y
  /\ Max position = mkPoint (x + Size config) (y + Size config)
  /\ Dx position = Size config /\ Dy position = Size config
  /\ (forall px py, PointIn px py position = true <->
        x <= px < x + Size config /\ y <= py < y + Size config)
  /\ (imgW < Margin config + Size config -> X (Min position) < 0)
  /\ (imgH < Margin config + Size config -> Y (Min position) < 0)
  /\ Min (CalculatePosition 800 600 (mkConfig 48 32)) = mkPoint 720 520
  /\ Min (CalculatePosition 2000 2000 (mkConfig 96 64)) = mkPoint 1840 1840.
Proof.
  intros HW HH HS HM HMS x y position.
  unfold position. rewrite CalculatePosition_eq by assumption. cbn [Min Max X Y].
  split; [reflexivity|]. split; [subst x y; f_equal; lia|].
  unfold Dx, Dy. cbn [Min Max X Y]. rewrite !int_sub_id by int_range.
  split; [lia|]. split; [lia|].
  split. { intros px py. rewrite PointIn_spec. cbn [Min Max X Y]. subst x y. lia. }
  split; [lia|]. split; [lia|]. split; reflexivity.
Qed.

Lemma CalculatePosition_rectangle_witness :
  Min (CalculatePosition 10 600 (mkConfig 48 32)) = mkPoint (-70) 520
  /\ Dx (CalculatePosition 10 600 (mkConfig 48 32)) = 48.
Proof.
  pose proof (CalculatePosition_rectangle 10 600 (mkConfig 48 32)
                ltac:(lia) ltac:(lia) ltac:(cbn [Size]; lia) ltac:(cbn [Margin]; lia)
                ltac:(cbn [Size Margin]; lia)) as H.
  cbv zeta in H. destruct H as (H1 & _ & H3 & _). split; assumption.
Defined.


(** ** Pixel buffers *)

Lemma byte_of_RGBA v : 0 <= v < 256 -> Z.shiftr (Z.lor v (Z.shiftl v 8)) 8 = v.
Proof.
  intros Hv. rewrite Z.shiftr_lor, Z.shiftr_shiftl_l by lia.
  replace (8 - 8) with 0 by lia. rewrite Z.shiftl_0_r.
  rewrite Z.shiftr_div_pow2 by lia.
  rewrite Z.div_small by lia. apply Z.lor_0_l.
Qed.

Lemma PixOffset_bounds p x y :
  wf_buf p -> PointIn x y (image.Rect p) = true ->
  0 <= image.PixOffset p x y
  /\ (Z.to_nat (image.PixOffset p x y) < length (image.Pix p))%nat.
Proof.
  intros (Hx & Hy & Hs & Hl) Hin. apply PointIn_spec in Hin.
  unfold image.PixOffset. rewrite Hs, Hl.
  set (w := X (Max (image.Rect p)) - X (Min (image.Rect p))) in *.
  set (hh := Y (Max (image.Rect p)) - Y (Min (image.Rect p))) in *.
  set (a := x - X (Min (image.Rect p))) in *.
  set (b := y - Y (Min (image.Rect p))) in *.
  assert (0 <= a < w) by (subst a w; lia).
  assert (0 <= b < hh) by (subst b hh; lia).
  assert (0 <= b * w) by nia.
  assert (b * w + a < w * hh) by nia.
  split; [lia|]. apply Z2Nat.inj_lt; lia.
Qed.

Lemma PixOffset_inj p x y x' y' :
  wf_buf p ->
  PointIn x y (image.Rect p) = true -> PointIn x' y' (image.Rect p) = true ->
  image.PixOffset p x y = image.PixOffset p x' y' -> x = x' /\ y = y'.
Proof.
  intros (Hx & Hy & Hs & Hl) Hin Hin'.
  apply PointIn_spec in Hin. apply PointIn_spec in Hin'.
  unfold image.PixOffset. rewrite Hs.
  set (w := X (Max (image.Rect p)) - X (Min (image.Rect p))) in *.
  intros Heq.
  assert (y = y') by nia. subst y'. split; [lia | reflexivity].
Qed.

Lemma SetRGBA_Rect p x y c : image.Rect (image.SetRGBA p x y c) = image.Rect p.
Proof. unfold image.SetRGBA. destruct (PointIn x y (image.Rect p)); reflexivity. Qed.

Lemma SetRGBA_wf p x y c : wf_buf p -> wf_buf (image.SetRGBA p x y c).
Proof.
  unfold image.SetRGBA. destruct (PointIn x y (image.Rect p)); [|tauto].
  unfold wf_buf. simpl. rewrite length_insert. tauto.
Qed.

(** Reading a buffer after one write. *)
Lemma RGBAAt_SetRGBA p x y c x' y' :
  wf_buf p ->
  image.RGBAAt (image.SetRGBA p x y c) x' y' =
    if (x' =? x) && (y' =? y) && PointIn x y (image.Rect p)
    then c else image.RGBAAt p x' y'.
Proof.
  intros Hwf. unfold image.SetRGBA.
  destruct (PointIn x y (image.Rect p)) eqn:Hin.
  - unfold image.RGBAAt at 1. simpl.
    destruct (Z.eqb_spec x' x) as [->|Hx]; simpl.
    + destruct (Z.eqb_spec y' y) as [->|Hy]; simpl.
      * rewrite Hin. unfold image.PixOffset at 1. simpl.
        fold (image.PixOffset p x y).
        rewrite list_lookup_insert_eq by (apply PixOffset_bounds; assumption).
        reflexivity.
      * unfold image.RGBAAt.
        destruct (PointIn x y' (image.Rect p)) eqn:Hin'; [|reflexivity].
        unfold image.PixOffset at 1. simpl. fold (image.PixOffset p x y').
        rewrite list_lookup_insert_ne; [reflexivity|].
        intros Heq. apply Z2Nat.inj in Heq;
          try (apply PixOffset_bounds; assumption).
        apply PixOffset_inj in Heq; try assumption. lia.
    + unfold image.RGBAAt.
      destruct (PointIn x' y' (image.Rect p)) eqn:Hin'; [|reflexivity].
      unfold image.PixOffset at 1. simpl. fold (image.PixOffset p x' y').
      rewrite list_lookup_insert_ne; [reflexivity|].
      intros Heq. apply Z2Nat.inj in Heq;
        try (apply PixOffset_bounds; assumption).
      apply PixOffset_inj in Heq; try assumption. lia.
  - rewrite andb_false_r. reflexivity.
Qed.

Lemma NewRGBA_wf r : valid_rect r -> wf_buf (image.NewRGBA r).
Proof.
  intros (Hx & Hy & Hw & Hh). unfold wf_buf, image.NewRGBA. simpl.
  unfold Dx, Dy. rewrite !int_sub_id by int_range.
  rewrite length_replicate. tauto.
Qed.


(** ** Loops over the pixels of a buffer *)

Lemma foldM_app {S T} (body : S -> T -> M S) (l1 l2 : list T) (s : S) (h : Heap) :
  foldM body s (l1 ++ l2) h =
    match foldM body s l1 h with
    | Some (s', h') => foldM body s' l2 h'
    | None => None
    end.
Proof.
  revert s h. induction l1 as [|i l1 IH]; intros s h; simpl.
  - reflexivity.
  - unfold bind. destruct (body s i h) as [[s' h']|]; [apply IH | reflexivity].
Qed.

Lemma forM_snoc {T} (l : list T) (i : T) (body : T -> M unit) (h : Heap) :
  forM_ (l ++ [i]) body h =
    match forM_ l body h with
    | Some (_, h') => body i h'
    | None => None
    end.
Proof.
  unfold forM_. rewrite foldM_app.
  destruct (foldM _ tt l h) as [[[] h']|]; [|reflexivity].
  simpl. unfold bind, ret. destruct (body i h') as [[[] h'']|]; reflexivity.
Qed.

Ltac bool_cases :=
  repeat match goal with
    | |- context [Z.eqb ?a ?b] => destruct (Z.eqb_spec a b)
    | |- context [Z.leb ?a ?b] => destruct (Z.leb_spec a b)
    | |- context [Z.ltb ?a ?b] => destruct (Z.ltb_spec a b)
    end;
  simpl; try reflexivity; try lia.

Section PixelLoop.

(** The iteration [(i, j)] of a nested loop rewrites the pixel
    [(cx + j, cy + i)] of the buffer allocated last, when [g i j] holds,
    from the value it finds there. *)
Variable h0 : Heap.
Variable rc : Rectangle.
Variables cx cy : Z.
Variable g : Z -> Z -> bool.
Variable F : Z -> Z -> color.RGBA -> color.RGBA.
Variable body : Z -> Z -> M unit.
Variables ay ny ax nx : Z.

Hypothesis ny_nonneg : 0 <= ny.
Hypothesis nx_nonneg : 0 <= nx.

Hypothesis body_spec : forall i j buf,
  ay <= i < ay + ny -> ax <= j < ax + nx ->
  wf_buf buf -> image.Rect buf = rc ->
  body i j (h0 ++ [buf]) =
    Some (tt, h0 ++ [if g i j
                     then image.SetRGBA buf (cx + j) (cy + i)
                            (F i j (image.RGBAAt buf (cx + j) (cy + i)))
                     else buf]).

Lemma row_loop (n : nat) (i : Z) (buf : image.RGBA) :
  Z.of_nat n <= nx -> ay <= i < ay + ny ->
  wf_buf buf -> image.Rect buf = rc ->
  exists buf',
    forM_ (seqZ ax (Z.of_nat n)) (body i) (h0 ++ [buf]) = Some (tt, h0 ++ [buf'])
    /\ wf_buf buf' /\ image.Rect buf' = rc
    /\ forall x y,
        image.RGBAAt buf' x y =
          if (y =? cy + i) && (ax <=? x - cx) && (x - cx <? ax + Z.of_nat n)
             && g i (x - cx) && PointIn x y rc
          then F i (x - cx) (image.RGBAAt buf x y)
          else image.RGBAAt buf x y.
Proof.
  intros Hn Hi Hwf Hrc. induction n as [|n IH].
  - exists buf. split; [reflexivity|]. split; [assumption|]. split; [assumption|].
    intros x y. bool_cases.
  - assert (Hle : Z.of_nat n <= nx) by lia. specialize (IH Hle).
    destruct IH as (buf1 & Hrun & Hwf1 & Hrc1 & Hat1).
    rewrite seqZ_S, forM_snoc, Hrun.
    rewrite body_spec by (try assumption; lia).
    eexists. split; [reflexivity|].
    destruct (g i (ax + Z.of_nat n)) eqn:Hg.
    + split; [apply SetRGBA_wf; assumption|].
      split; [rewrite SetRGBA_Rect; assumption|].
      intros x y. rewrite RGBAAt_SetRGBA by assumption.
      rewrite Hrc1, !Hat1.
      destruct (Z.eqb_spec x (cx + (ax + Z.of_nat n))) as [->|Hx].
      * replace (cx + (ax + Z.of_nat n) - cx) with (ax + Z.of_nat n) by lia.
        rewrite Hg.
        destruct (Z.eqb_spec y (cy + i)) as [->|Hy]; simpl.
        -- rewrite Z.eqb_refl. simpl.
           destruct (PointIn _ _ rc); bool_cases.
        -- bool_cases.
      * simpl. rewrite Nat2Z.inj_succ. bool_cases.
    + split; [assumption|]. split; [assumption|].
      intros x y. rewrite Hat1. rewrite Nat2Z.inj_succ.
      destruct (Z.eqb_spec (x - cx) (ax + Z.of_nat n)) as [->|Hx].
      * rewrite Hg. bool_cases.
      * bool_cases.
Qed.

Lemma rows_loop (m : nat) (buf : image.RGBA) :
  Z.of_nat m <= ny -> wf_buf buf -> image.Rect buf = rc ->
  exists buf',
    forM_ (seqZ ay (Z.of_nat m)) (fun i => forM_ (seqZ ax nx) (body i)) (h0 ++ [buf])
      = Some (tt, h0 ++ [buf'])
    /\ wf_buf buf' /\ image.Rect buf' = rc
    /\ forall x y,
        image.RGBAAt buf' x y =
          if (ay <=? y - cy) && (y - cy <? ay + Z.of_nat m)
             && (ax <=? x - cx) && (x - cx <? ax + nx)
             && g (y - cy) (x - cx) && PointIn x y rc
          then F (y - cy) (x - cx) (image.RGBAAt buf x y)
          else image.RGBAAt buf x y.
Proof.
  intros Hm Hwf Hrc. induction m as [|m IH].
  - exists buf. split; [reflexivity|]. split; [assumption|]. split; [assumption|].
    intros x y. bool_cases.
  - assert (Hle : Z.of_nat m <= ny) by lia. specialize (IH Hle).
    destruct IH as (buf1 & Hrun & Hwf1 & Hrc1 & Hat1).
    rewrite seqZ_S, forM_snoc, Hrun.
    destruct (row_loop (Z.to_nat nx) (ay + Z.of_nat m) buf1)
      as (buf2 & Hrun2 & Hwf2 & Hrc2 & Hat2); try assumption; try lia.
    rewrite Z2Nat.id in Hrun2, Hat2 by assumption.
    exists buf2. split; [exact Hrun2|]. split; [assumption|]. split; [assumption|].
    intros x y. rewrite Hat2, Hat1. rewrite Nat2Z.inj_succ.
    destruct (Z.eqb_spec y (cy + (ay + Z.of_nat m))) as [->|Hy].
    + replace (cy + (ay + Z.of_nat m) - cy) with (ay + Z.of_nat m) by lia.
      simpl. bool_cases.
    + simpl. bool_cases.
Qed.

Lemma pixel_loop (buf : image.RGBA) :
  wf_buf buf -> image.Rect buf = rc ->
  exists buf',
    forM_ (seqZ ay ny) (fun i => forM_ (seqZ ax nx) (body i)) (h0 ++ [buf])
      = Some (tt, h0 ++ [buf'])
    /\ wf_buf buf' /\ image.Rect buf' = rc
    /\ forall x y,
        image.RGBAAt buf' x y =
          if (ay <=? y - cy) && (y - cy <? ay + ny)
             && (ax <=? x - cx) && (x - cx <? ax + nx)
             && g (y - cy) (x - cx) && PointIn x y rc
          then F (y - cy) (x - cx) (image.RGBAAt buf x y)
          else image.RGBAAt buf x y.
Proof.
  intros Hwf Hrc.
  destruct (rows_loop (Z.to_nat ny) buf) as (buf' & Hrun & H); try assumption; try lia.
  rewrite Z2Nat.id in Hrun, H by assumption.
  exists buf'. split; assumption.
Qed.

End PixelLoop.


(** ** The heap operations on the buffer allocated last *)

Lemma deref_last (h0 : Heap) (buf : image.RGBA) :
  deref (length h0) (h0 ++ [buf]) = Some (buf, h0 ++ [buf]).
Proof.
  unfold deref. rewrite lookup_app_r by lia.
  rewrite Nat.sub_diag. reflexivity.
Qed.

Lemma assign_last (h0 : Heap) (buf p : image.RGBA) :
  assign (length h0) p (h0 ++ [buf]) = Some (tt, h0 ++ [p]).
Proof.
  unfold assign. rewrite length_app. simpl.
  destruct (decide (length h0 < length h0 + 1)%nat); [|lia].
  rewrite insert_app_r_alt by lia. rewrite Nat.sub_diag. reflexivity.
Qed.

Lemma SetRGBA_last (h0 : Heap) (buf : image.RGBA) x y c :
  SetRGBA (length h0) x y c (h0 ++ [buf])
  = Some (tt, h0 ++ [image.SetRGBA buf x y c]).
Proof. unfold SetRGBA, bind. rewrite deref_last. apply assign_last. Qed.

Lemma RGBAAt_last (h0 : Heap) (buf : image.RGBA) x y :
  RGBAAt (length h0) x y (h0 ++ [buf])
  = Some (image.RGBAAt buf x y, h0 ++ [buf]).
Proof. unfold RGBAAt, bind. rewrite deref_last. reflexivity. Qed.

Lemma Bounds_inv (h : Heap) (img : Image) (bounds : Rectangle) (h' : Heap) :
  Bounds img h = Some (bounds, h') ->
  h' = h /\
  match img with
  | RGBARef l => exists p, h !! l = Some p /\ image.Rect p = bounds
  | Other b _ => b = bounds
  end.
Proof.
  destruct img as [l|b f]; simpl.
  - unfold bind, deref, ret. destruct (h !! l) as [p|]; [|discriminate].
    intros [= <- <-]. split; [reflexivity | eauto].
  - unfold ret. intros [= <- <-]. split; reflexivity.
Qed.

Lemma At_frame (h0 : Heap) (img : Image) (bounds : Rectangle) (buf : image.RGBA) x y :
  Bounds img h0 = Some (bounds, h0) ->
  At img x y (h0 ++ [buf]) = Some (pixelOf h0 img x y, h0 ++ [buf]).
Proof.
  intros Hb. apply Bounds_inv in Hb as [_ Hb].
  destruct img as [l|b f]; simpl; [|reflexivity].
  destruct Hb as (p & Hp & _). unfold bind, deref.
  rewrite lookup_app_l by (eapply lookup_lt_Some; eassumption).
  rewrite Hp. reflexivity.
Qed.

Lemma At_run (h : Heap) (img : Image) (bounds : Rectangle) x y :
  Bounds img h = Some (bounds, h) ->
  At img x y h = Some (pixelOf h img x y, h).
Proof.
  intros Hb. apply Bounds_inv in Hb as [_ Hb].
  destruct img as [l|b f]; simpl; [|reflexivity].
  destruct Hb as (p & Hp & _). unfold bind, deref. rewrite Hp. reflexivity.
Qed.

Lemma index_run {T} (s : list T) (i : Z) (d : T) (h : Heap) :
  0 <= i < Z.of_nat (length s) ->
  index s i h = Some (default d (s !! Z.to_nat i), h).
Proof.
  intros Hi. unfold index. destruct (Z.ltb_spec i 0); [lia|].
  destruct (lookup_lt_is_Some_2 s (Z.to_nat i)) as [v Hv]; [lia|].
  rewrite Hv. reflexivity.
Qed.

(** ** Colours *)

Lemma toRGBA_bytes c : byte_pixel (color.toRGBA c).
Proof. unfold byte_pixel, color.toRGBA. simpl. repeat split; apply uint8_range. Qed.

Lemma blendColor_bytes alpha c :
  byte_pixel c -> blendColor alpha (color.RGBA_RGBA c) = restorePixel alpha c.
Proof.
  intros (HR & HG & HB & HA). unfold blendColor, restorePixel, color.RGBA_RGBA.
  simpl. rewrite !byte_of_RGBA by assumption.
  rewrite uint8_id by assumption. reflexivity.
Qed.

Lemma toRGBA_RGBA_RGBA c : byte_pixel c -> color.toRGBA (color.RGBA_RGBA c) = c.
Proof.
  intros (HR & HG & HB & HA). unfold color.toRGBA, color.RGBA_RGBA. simpl.
  rewrite !byte_of_RGBA by assumption. rewrite !uint8_id by assumption.
  destruct c; reflexivity.
Qed.

(** ** The copy made by [draw.Draw] *)

Lemma NewRGBA_zero r x y : image.RGBAAt (image.NewRGBA r) x y = color.zero.
Proof.
  unfold image.RGBAAt. destruct (PointIn x y _); [|reflexivity].
  simpl. destruct (replicate _ _ !! _) as [c|] eqn:E; [|reflexivity].
  apply lookup_replicate in E as [-> _]. reflexivity.
Qed.

Lemma valid_rect_Dx r : valid_rect r -> Dx r = X (Max r) - X (Min r).
Proof. intros (? & ? & ? & ?). unfold Dx. apply int_sub_id. int_range. Qed.

Lemma valid_rect_Dy r : valid_rect r -> Dy r = Y (Max r) - Y (Min r).
Proof. intros (? & ? & ? & ?). unfold Dy. apply int_sub_id. int_range. Qed.

Lemma Draw_run (h0 : Heap) (img : Image) (bounds : Rectangle) :
  valid_image h0 img bounds ->
  exists copy,
    Draw (length h0) bounds img (Min bounds) (h0 ++ [image.NewRGBA bounds])
      = Some (tt, h0 ++ [copy])
    /\ wf_buf copy /\ image.Rect copy = bounds
    /\ forall x y,
        image.RGBAAt copy x y =
          if PointIn x y bounds then pixel8 h0 img x y else color.zero.
Proof.
  intros [Hb Hr]. unfold Draw.
  pose proof Hr as (Hx & Hy & Hw & Hh).
  destruct (pixel_loop h0 bounds 0 0 (fun _ _ => true)
              (fun i j _ => color.toRGBA
                 (pixelOf h0 img (X (Min bounds) + (j - X (Min bounds)))
                                 (Y (Min bounds) + (i - Y (Min bounds)))))
              (fun y x =>
                 c <- At img (X (Min bounds) + (x - X (Min bounds)))
                             (Y (Min bounds) + (y - Y (Min bounds)));;
                 SetRGBA (length h0) x y (color.toRGBA c))
              (Y (Min bounds)) (Dy bounds) (X (Min bounds)) (Dx bounds))
    with (buf := image.NewRGBA bounds)
    as (copy & Hrun & Hwf & Hrc & Hat).
  - rewrite valid_rect_Dy by assumption. lia.
  - rewrite valid_rect_Dx by assumption. lia.
  - intros i j buf _ _ _ _. unfold bind.
    rewrite (At_frame h0 img bounds) by assumption.
    rewrite SetRGBA_last. reflexivity.
  - apply NewRGBA_wf. assumption.
  - reflexivity.
  - exists copy. split; [exact Hrun|]. split; [assumption|]. split; [assumption|].
    intros x y. rewrite Hat, NewRGBA_zero, !Z.sub_0_r.
    rewrite valid_rect_Dx, valid_rect_Dy by assumption.
    destruct (PointIn x y bounds) eqn:Hin.
    + apply PointIn_spec in Hin. unfold pixel8.
      replace (X (Min bounds) + (x - X (Min bounds))) with x by lia.
      replace (Y (Min bounds) + (y - Y (Min bounds))) with y by lia.
      bool_cases.
    + rewrite !andb_false_r. reflexivity.
Qed.

(** ** One iteration of the removal loop *)

Lemma DetectConfig_cases width height :
  DetectConfig width height = mkConfig 96 64
  \/ DetectConfig width height = mkConfig 48 32.
Proof.
  unfold DetectConfig.
  destruct ((1024 <? width) && (1024 <? height)); [left | right]; reflexivity.
Qed.

Lemma position_Min width height :
  0 <= width < 2 ^ 63 -> 0 <= height < 2 ^ 63 ->
  Min (CalculatePosition width height (DetectConfig width height)) =
    mkPoint (width - Margin (DetectConfig width height) - Size (DetectConfig width height))
            (height - Margin (DetectConfig width height) - Size (DetectConfig width height)).
Proof.
  intros Hw Hh.
  destruct (DetectConfig_cases width height) as [-> | ->];
    rewrite CalculatePosition_eq by (simpl; lia); reflexivity.
Qed.

Lemma selectedMap_length e width height :
  wf_engine e ->
  Z.of_nat (length (selectedMap e width height)) =
    Size (DetectConfig width height) * Size (DetectConfig width height).
Proof.
  intros [H48 H96]. unfold selectedMap.
  destruct (DetectConfig_cases width height) as [-> | ->]; simpl; lia.
Qed.

Lemma removePixel_run (e : Engine) (h0 : Heap) (buf : image.RGBA)
    (width height row col : Z) :
  wf_engine e ->
  0 <= width < 2 ^ 63 -> 0 <= height < 2 ^ 63 ->
  0 <= row < Size (DetectConfig width height) ->
  0 <= col < Size (DetectConfig width height) ->
  let position := CalculatePosition width height (DetectConfig width height) in
  removePixel (length h0) width height (DetectConfig width height) position
              (selectedMap e width height) row col (h0 ++ [buf])
  = Some (tt, h0 ++ [
      if negb (outside width height (X (Min position) + col) (Y (Min position) + row))
         && negb (F32.ltb (alphaAt e width height row col) AlphaThreshold)
      then image.SetRGBA buf (X (Min position) + col) (Y (Min position) + row)
             (blendColor (alphaAt e width height row col)
                (color.RGBA_RGBA
                   (image.RGBAAt buf (X (Min position) + col) (Y (Min position) + row))))
      else buf]).
Proof.
  intros He Hw Hh Hrow Hcol position.
  pose proof (selectedMap_length e width height He) as Hlen.
  pose proof (position_Min width height Hw Hh) as Hmin. fold position in Hmin.
  assert (Hsz : Size (DetectConfig width height) <= 96
                /\ Margin (DetectConfig width height) <= 64
                /\ 0 <= Margin (DetectConfig width height)).
  { destruct (DetectConfig_cases width height) as [-> | ->]; simpl; lia. }
  assert (Hidx : 0 <= row * Size (DetectConfig width height) + col
                 < Size (DetectConfig width height) * Size (DetectConfig width height)).
  { assert (row * Size (DetectConfig width height)
            <= (Size (DetectConfig width height) - 1) * Size (DetectConfig width height))
      by (apply Z.mul_le_mono_nonneg_r; lia).
    assert (0 <= row * Size (DetectConfig width height))
      by (apply Z.mul_nonneg_nonneg; lia).
    lia. }
  unfold removePixel, outside.
  rewrite (int_add_id (X (Min position))) by (rewrite Hmin; cbn [X Y]; int_range).
  rewrite (int_add_id (Y (Min position))) by (rewrite Hmin; cbn [X Y]; int_range).
  match goal with
  | |- context [if ?c then ret tt else _] => destruct c
  end; [reflexivity|].
  cbn [negb andb].
  assert (Hsq : Size (DetectConfig width height) * Size (DetectConfig width height)
                <= 9216).
  { destruct (DetectConfig_cases width height) as [-> | ->]; simpl; lia. }
  rewrite int_mul_id by int_range.
  rewrite int_add_id by int_range.
  unfold bind.
  rewrite (index_run _ _ S754_nan) by lia.
  fold (alphaAt e width height row col).
  destruct (F32.ltb (alphaAt e width height row col) AlphaThreshold); [reflexivity|].
  rewrite RGBAAt_last, SetRGBA_last. reflexivity.
Qed.

(** ** What [RemoveWatermark] computes *)

(** The run of [RemoveWatermark] on a valid image: it allocates one new
    buffer at the end of the heap, leaves the rest of the heap as it
    was, and every pixel of the new buffer is either the restored pixel
    or the eight-bit copy of the input pixel. *)
Lemma RemoveWatermark_run (e : Engine) (img : Image) (h : Heap) (bounds : Rectangle) :
  wf_engine e -> valid_image h img bounds ->
  let width := X (Max bounds) - X (Min bounds) in
  let height := Y (Max bounds) - Y (Min bounds) in
  let position := CalculatePosition width height (DetectConfig width height) in
  let size := Size (DetectConfig width height) in
  exists out,
    RemoveWatermark e img h = Some (RGBARef (length h), h ++ [out])
    /\ wf_buf out /\ image.Rect out = bounds
    /\ forall x y,
        image.RGBAAt out x y =
          if (0 <=? y - Y (Min position)) && (y - Y (Min position) <? size)
             && (0 <=? x - X (Min position)) && (x - X (Min position) <? size)
             && negb (outside width height x y)
             && negb (F32.ltb (alphaAt e width height (y - Y (Min position))
                                       (x - X (Min position))) AlphaThreshold)
             && PointIn x y bounds
          then restorePixel (alphaAt e width height (y - Y (Min position))
                                     (x - X (Min position)))
                            (pixel8 h img x y)
          else if PointIn x y bounds then pixel8 h img x y else color.zero.
Proof.
  intros He Hv width height position size.
  pose proof Hv as [Hb Hr]. pose proof Hr as (Hx & Hy & Hw & Hh).
  destruct (Draw_run h img bounds Hv) as (copy & Hdraw & Hwfc & Hrcc & Hatc).
  assert (Hwidth : 0 <= width < 2 ^ 63) by (subst width; lia).
  assert (Hheight : 0 <= height < 2 ^ 63) by (subst height; lia).
  assert (Hsize : 0 <= size).
  { subst size. destruct (DetectConfig_cases width height) as [-> | ->]; simpl; lia. }
  destruct (pixel_loop h bounds (X (Min position)) (Y (Min position))
              (fun row col =>
                 negb (outside width height (X (Min position) + col) (Y (Min position) + row))
                 && negb (F32.ltb (alphaAt e width height row col) AlphaThreshold))
              (fun row col c =>
                 blendColor (alphaAt e width height row col) (color.RGBA_RGBA c))
              (fun row col =>
                 removePixel (length h) width height (DetectConfig width height)
                   position (selectedMap e width height) row col)
              0 size 0 size Hsize Hsize)
    with (buf := copy) as (out & Hrun & Hwf & Hrc & Hat).
  - intros i j buf Hi Hj _ _.
    apply removePixel_run; try assumption; subst size; lia.
  - assumption.
  - assumption.
  - exists out. split.
    + unfold RemoveWatermark, bind. rewrite Hb.
      unfold NewRGBA, alloc. rewrite Hdraw.
      rewrite valid_rect_Dx, valid_rect_Dy by assumption.
      fold width height. fold position.
      change (if Size (DetectConfig width height) =? 96
              then alphaMap96 e else alphaMap48 e)
        with (selectedMap e width height).
      fold size. rewrite Hrun. reflexivity.
    + split; [assumption|]. split; [assumption|].
      intros x y. rewrite Hat, !Hatc. simpl (0 + size).
      replace (X (Min position) + (x - X (Min position))) with x by lia.
      replace (Y (Min position) + (y - Y (Min position))) with y by lia.
      destruct (PointIn x y bounds) eqn:Hin.
      * rewrite blendColor_bytes by apply toRGBA_bytes.
        rewrite !andb_assoc. reflexivity.
      * rewrite !andb_false_r. reflexivity.
Qed.


(** ** Comparison of floating-point numbers *)

Lemma SFcompare_antisym (x y : spec_float) :
  SFcompare y x = option_map CompOpp (SFcompare x y).
Proof.
  destruct x as [sx|sx| |sx mx ex], y as [sy|sy| |sy my ey]; simpl;
    try reflexivity;
    try (destruct sx; reflexivity); try (destruct sy; reflexivity);
    try (destruct sx, sy; reflexivity).
  destruct sx, sy; simpl; try reflexivity;
    rewrite (Z.compare_antisym ex ey);
    destruct (ex ?= ey); simpl; try reflexivity;
    change (Pos.compare_cont Eq my mx) with (Pos.compare my mx);
    change (Pos.compare_cont Eq mx my) with (Pos.compare mx my);
    rewrite (Pos.compare_antisym mx my);
    destruct (Pos.compare mx my); reflexivity.
Qed.

Lemma leb_not_ltb (x y : spec_float) : SFleb x y = true -> SFltb y x = false.
Proof.
  unfold SFleb, SFltb. rewrite (SFcompare_antisym x y).
  destruct (SFcompare x y) as [[]|]; simpl; congruence.
Qed.

(** ** The pixels of the result *)

Lemma position_In (width height x y : Z) :
  0 <= width < 2 ^ 63 -> 0 <= height < 2 ^ 63 ->
  let position := CalculatePosition width height (DetectConfig width height) in
  let size := Size (DetectConfig width height) in
  PointIn x y position =
    (0 <=? y - Y (Min position)) && (y - Y (Min position) <? size)
    && (0 <=? x - X (Min position)) && (x - X (Min position) <? size).
Proof.
  intros Hw Hh position size. subst position size. unfold PointIn.
  destruct (DetectConfig_cases width height) as [-> | ->];
    rewrite CalculatePosition_eq by (simpl; lia); simpl; bool_cases.
Qed.

Lemma RemoveWatermark_pixels (e : Engine) (img : Image) (h : Heap) (bounds : Rectangle) :
  wf_engine e -> valid_image h img bounds ->
  exists out,
    RemoveWatermark e img h = Some (RGBARef (length h), h ++ [out])
    /\ wf_buf out /\ image.Rect out = bounds
    /\ forall x y,
        image.RGBAAt out x y =
          if PointIn x y (watermarkRect bounds)
             && negb (outside (Dx bounds) (Dy bounds) x y)
             && negb (F32.ltb (alphaAt e (Dx bounds) (Dy bounds)
                                 (y - Y (Min (watermarkRect bounds)))
                                 (x - X (Min (watermarkRect bounds))))
                              AlphaThreshold)
             && PointIn x y bounds
          then restorePixel (alphaAt e (Dx bounds) (Dy bounds)
                               (y - Y (Min (watermarkRect bounds)))
                               (x - X (Min (watermarkRect bounds))))
                            (pixel8 h img x y)
          else if PointIn x y bounds then pixel8 h img x y else color.zero.
Proof.
  intros He Hv.
  destruct (RemoveWatermark_run e img h bounds He Hv)
    as (out & Hrun & Hwf & Hrc & Hat).
  destruct Hv as [_ Hr]. pose proof Hr as (Hx & Hy & Hw & Hh & _).
  exists out. split; [exact Hrun|]. split; [assumption|]. split; [assumption|].
  intros x y. unfold watermarkRect.
  rewrite valid_rect_Dx, valid_rect_Dy by assumption.
  rewrite position_In by lia. apply Hat.
Qed.

(** C6. The result has the bounds, hence the width and the height, of
    the input, and outside the watermark rectangle each of its pixels
    is the input pixel, channel for channel; for an input that is
    itself a buffer of byte pixels the stored pixel is the same. *)
Theorem RemoveWatermark_outside_region
    (e : Engine) (img : Image) (h : Heap) (bounds : Rectangle) :
  wf_engine e -> valid_image h img bounds ->
  exists out,
    RemoveWatermark e img h = Some (RGBARef (length h), h ++ [out])
    /\ Bounds (RGBARef (length h)) (h ++ [out]) = Some (bounds, h ++ [out])
    /\ Dx (image.Rect out) = Dx bounds /\ Dy (image.Rect out) = Dy bounds
    /\ (forall x y,
          PointIn x y bounds = true ->
          PointIn x y (watermarkRect bounds) = false ->
          image.RGBAAt out x y = pixel8 h img x y)
    /\ (forall l p x y,
          img = RGBARef l -> h !! l = Some p ->
          byte_pixel (image.RGBAAt p x y) ->
          PointIn x y bounds = true ->
          PointIn x y (watermarkRect bounds) = false ->
          image.RGBAAt out x y = image.RGBAAt p x y).
Proof.
  intros He Hv.
  destruct (RemoveWatermark_pixels e img h bounds He Hv)
    as (out & Hrun & Hwf & Hrc & Hat).
  exists out. split; [exact Hrun|].
  split. { simpl. unfold bind. rewrite deref_last. simpl. rewrite Hrc. reflexivity. }
  rewrite Hrc. split; [reflexivity|]. split; [reflexivity|].
  assert (Hout : forall x y,
            PointIn x y bounds = true ->
            PointIn x y (watermarkRect bounds) = false ->
            image.RGBAAt out x y = pixel8 h img x y).
  { intros x y Hin Hnot. rewrite Hat, Hnot, Hin. reflexivity. }
  split; [exact Hout|].
  intros l p x y -> Hp Hbytes Hin Hnot. rewrite Hout by assumption.
  unfold pixel8, pixelOf. rewrite Hp. apply toRGBA_RGBA_RGBA. assumption.
Qed.

(** C7. Every pixel of the result has the alpha channel of the input
    pixel, inside the watermark rectangle as well as outside. *)
Theorem RemoveWatermark_alpha_channel
    (e : Engine) (img : Image) (h : Heap) (bounds : Rectangle) :
  wf_engine e -> valid_image h img bounds ->
  exists out,
    RemoveWatermark e img h = Some (RGBARef (length h), h ++ [out])
    /\ forall x y,
        PointIn x y bounds = true ->
        color.A (image.RGBAAt out x y) = color.A (pixel8 h img x y).
Proof.
  intros He Hv.
  destruct (RemoveWatermark_pixels e img h bounds He Hv)
    as (out & Hrun & Hwf & Hrc & Hat).
  exists out. split; [exact Hrun|].
  intros x y Hin. rewrite Hat, Hin.
  destruct (_ && _); reflexivity.
Qed.

(** C8. [RemoveWatermark] writes to a buffer it allocates: the buffers
    the heap held before the call, the caller's among them, hold the
    same pixels after it, and the input image reads as before. *)
Theorem RemoveWatermark_input_untouched
    (e : Engine) (img : Image) (h : Heap) (bounds : Rectangle) :
  wf_engine e -> valid_image h img bounds ->
  exists out,
    RemoveWatermark e img h = Some (RGBARef (length h), h ++ [out])
    /\ h !! length h = None
    /\ (forall l p, h !! l = Some p -> (h ++ [out]) !! l = Some p)
    /\ Bounds img (h ++ [out]) = Some (bounds, h ++ [out])
    /\ (forall x y, At img x y (h ++ [out]) = Some (pixelOf h img x y, h ++ [out])).
Proof.
  intros He Hv.
  destruct (RemoveWatermark_pixels e img h bounds He Hv)
    as (out & Hrun & Hwf & Hrc & Hat).
  destruct Hv as [Hb Hr].
  exists out. split; [exact Hrun|].
  split. { apply lookup_ge_None. lia. }
  split. { intros l p Hp. rewrite lookup_app_l; [assumption|].
           eapply lookup_lt_Some; eassumption. }
  split.
  - pose proof (Bounds_inv _ _ _ _ Hb) as [_ Hi].
    clear Hrun Hat. destruct img as [l|b f]; simpl in Hi; simpl.
    + destruct Hi as (p & Hp & <-). unfold bind, deref.
      rewrite lookup_app_l by (eapply lookup_lt_Some; eassumption).
      rewrite Hp. reflexivity.
    + subst b. reflexivity.
  - intros x y. eapply At_frame. eassumption.
Qed.

(** The sample data satisfy the hypotheses of the theorems. *)
Lemma sampleEngine_wf : wf_engine sampleEngine.
Proof.
  unfold wf_engine, sampleEngine. cbn [alphaMap48 alphaMap96].
  rewrite !length_fmap, !length_seqZ. split; reflexivity.
Qed.

Lemma sampleBounds_valid : valid_rect sampleBounds.
Proof. unfold valid_rect, GoInt.in_int. cbn. lia. Qed.

Lemma sampleImage_valid : valid_image [] sampleImage sampleBounds.
Proof. split; [reflexivity | apply sampleBounds_valid]. Qed.

Lemma sampleHeap_valid : valid_image sampleHeap (RGBARef 0) sampleBounds.
Proof. split; [reflexivity | apply sampleBounds_valid]. Qed.

Lemma RemoveWatermark_outside_region_witness :
  exists out,
    RemoveWatermark sampleEngine sampleImage [] = Some (RGBARef 0, [out])
    /\ image.RGBAAt out 20 20 = color.mkRGBA 200 100 20 255.
Proof.
  destruct (RemoveWatermark_outside_region sampleEngine sampleImage [] sampleBounds
              sampleEngine_wf sampleImage_valid)
    as (out & Hrun & _ & _ & _ & Hout & _).
  exists out. split; [exact Hrun|].
  rewrite Hout; reflexivity.
Defined.

Lemma RemoveWatermark_alpha_channel_witness :
  exists out,
    RemoveWatermark sampleEngine sampleImage [] = Some (RGBARef 0, [out])
    /\ color.A (image.RGBAAt out 3 2) = 255.
Proof.
  destruct (RemoveWatermark_alpha_channel sampleEngine sampleImage [] sampleBounds
              sampleEngine_wf sampleImage_valid)
    as (out & Hrun & Halpha).
  exists out. split; [exact Hrun|].
  rewrite Halpha; reflexivity.
Defined.

Lemma RemoveWatermark_input_untouched_witness :
  exists out,
    RemoveWatermark sampleEngine (RGBARef 0) sampleHeap
      = Some (RGBARef 1, sampleHeap ++ [out])
    /\ (sampleHeap ++ [out]) !! 0%nat = Some (image.NewRGBA sampleBounds).
Proof.
  destruct (RemoveWatermark_input_untouched sampleEngine (RGBARef 0) sampleHeap
              sampleBounds sampleEngine_wf sampleHeap_valid)
    as (out & Hrun & _ & Hkeep & _).
  exists out. split; [exact Hrun|].
  apply Hkeep. reflexivity.
Defined.

(** C1. On an image whose bounds are [[0,width) x [0,height)], the
    watermark pixel [(row, col)] that falls inside the image and whose
    alpha is at least [AlphaThreshold] gets, in each of R, G and B, the
    reverse blend of the input channel with [a = min(alpha, MaxAlpha)];
    a pixel whose alpha is below the threshold keeps the copied value;
    a coordinate outside the image is passed over, and the call
    returns. *)
Theorem RemoveWatermark_reverse_blend
    (e : Engine) (img : Image) (h : Heap) (bounds : Rectangle)
    (row col : Z) (alpha : F32.t) :
  wf_engine e -> valid_image h img bounds -> Min bounds = mkPoint 0 0 ->
  let width := Dx bounds in
  let height := Dy bounds in
  let config := DetectConfig width height in
  let imgX := X (Min (CalculatePosition width height config)) + col in
  let imgY := Y (Min (CalculatePosition width height config)) + row in
  0 <= row < Size config -> 0 <= col < Size config ->
  selectedMap e width height !! Z.to_nat (row * Size config + col) = Some alpha ->
  exists out,
    RemoveWatermark e img h = Some (RGBARef (length h), h ++ [out])
    /\ (0 <= imgX < width -> 0 <= imgY < height ->
        F32.leb AlphaThreshold alpha = true ->
        color.R (image.RGBAAt out imgX imgY)
          = reverseBlend alpha (color.R (pixel8 h img imgX imgY))
        /\ color.G (image.RGBAAt out imgX imgY)
          = reverseBlend alpha (color.G (pixel8 h img imgX imgY))
        /\ color.B (image.RGBAAt out imgX imgY)
          = reverseBlend alpha (color.B (pixel8 h img imgX imgY)))
    /\ (0 <= imgX < width -> 0 <= imgY < height ->
        F32.ltb alpha AlphaThreshold = true ->
        image.RGBAAt out imgX imgY = pixel8 h img imgX imgY)
    /\ (outside width height imgX imgY = true ->
        image.RGBAAt out imgX imgY = color.zero).
Proof.
  intros He Hv Hmin width height config imgX imgY Hrow Hcol Halpha.
  destruct (RemoveWatermark_pixels e img h bounds He Hv)
    as (out & Hrun & Hwf & Hrc & Hat).
  destruct Hv as [_ Hr]. pose proof Hr as (Hx & Hy & Hw & Hh & _).
  assert (HDx : width = X (Max bounds)).
  { subst width. rewrite valid_rect_Dx by assumption. rewrite Hmin. cbn [X]. lia. }
  assert (HDy : height = Y (Max bounds)).
  { subst height. rewrite valid_rect_Dy by assumption. rewrite Hmin. cbn [Y]. lia. }
  assert (Hwidth : 0 <= width < 2 ^ 63).
  { subst width. rewrite valid_rect_Dx by assumption. lia. }
  assert (Hheight : 0 <= height < 2 ^ 63).
  { subst height. rewrite valid_rect_Dy by assumption. lia. }
  assert (HA : alphaAt e width height row col = alpha).
  { unfold alphaAt. fold config. rewrite Halpha. reflexivity. }
  assert (Hpix : image.RGBAAt out imgX imgY =
            if negb (outside width height imgX imgY)
               && negb (F32.ltb alpha AlphaThreshold)
               && PointIn imgX imgY bounds
            then restorePixel alpha (pixel8 h img imgX imgY)
            else if PointIn imgX imgY bounds
                 then pixel8 h img imgX imgY else color.zero).
  { rewrite Hat. unfold watermarkRect. fold width height. fold config.
    replace (imgY - Y (Min (CalculatePosition width height config))) with row
      by (subst imgY; lia).
    replace (imgX - X (Min (CalculatePosition width height config))) with col
      by (subst imgX; lia).
    rewrite HA. subst config.
    rewrite (position_In width height imgX imgY Hwidth Hheight).
    replace (imgY - Y (Min (CalculatePosition width height (DetectConfig width height))))
      with row by (subst imgY; lia).
    replace (imgX - X (Min (CalculatePosition width height (DetectConfig width height))))
      with col by (subst imgX; lia).
    destruct (Z.leb_spec 0 row), (Z.ltb_spec row (Size (DetectConfig width height))),
      (Z.leb_spec 0 col), (Z.ltb_spec col (Size (DetectConfig width height)));
      try lia.
    reflexivity. }
  assert (Hin : 0 <= imgX < width -> 0 <= imgY < height ->
                outside width height imgX imgY = false
                /\ PointIn imgX imgY bounds = true).
  { intros HX HY. split.
    - unfold outside. bool_cases.
    - apply PointIn_spec. rewrite Hmin. cbn [X Y]. lia. }
  exists out. split; [exact Hrun|]. split; [|split].
  - intros HX HY Hge. destruct (Hin HX HY) as [Ho Hp].
    rewrite Hpix, Ho, Hp. unfold F32.ltb, F32.leb in *.
    rewrite (leb_not_ltb _ _ Hge). cbn [negb andb restorePixel color.R color.G color.B].
    repeat split; reflexivity.
  - intros HX HY Hlt. destruct (Hin HX HY) as [Ho Hp].
    rewrite Hpix, Ho, Hp, Hlt. reflexivity.
  - intros Ho. rewrite Hpix, Ho. cbn [negb andb].
    assert (Hp : PointIn imgX imgY bounds = false).
    { destruct (PointIn imgX imgY bounds) eqn:E; [|reflexivity].
      apply PointIn_spec in E. rewrite Hmin in E. cbn [X Y] in E.
      revert Ho. unfold outside. bool_cases. }
    rewrite Hp. reflexivity.
Qed.

Lemma RemoveWatermark_reverse_blend_witness :
  exists out,
    RemoveWatermark sampleEngine sampleImage [] = Some (RGBARef 0, [out])
    /\ color.R (image.RGBAAt out 0 0) = 162
    /\ color.G (image.RGBAAt out 0 0) = 0
    /\ color.B (image.RGBAAt out 0 0) = 0.
Proof.
  destruct (RemoveWatermark_reverse_blend sampleEngine sampleImage [] sampleBounds
              44 40 (alphaOf 104) sampleEngine_wf sampleImage_valid eq_refl
              ltac:(change (0 <= 44 < 48); lia) ltac:(change (0 <= 40 < 48); lia)
              ltac:(vm_compute; reflexivity))
    as (out & Hrun & Hblend & _).
  exists out. split; [exact Hrun|].
  destruct Hblend as (HR & HG & HB);
    [change (0 <= 0 < 40); lia | change (0 <= 0 < 36); lia
    | vm_compute; reflexivity |].
  split; [|split].
  - etransitivity; [exact HR | vm_compute; reflexivity].
  - etransitivity; [exact HG | vm_compute; reflexivity].
  - etransitivity; [exact HB | vm_compute; reflexivity].
Defined.


(** ** Alpha maps *)

Lemma store_run {T} (s : list T) (i : Z) (v : T) (h : Heap) :
  0 <= i < Z.of_nat (length s) ->
  store s i v h = Some (<[Z.to_nat i := v]> s, h).
Proof.
  intros Hi. unfold store.
  destruct (Z.ltb_spec i 0); [lia|].
  destruct (Z.leb_spec (Z.of_nat (length s)) i); [lia|]. reflexivity.
Qed.

Lemma maxChannel_max (r8 g8 b8 : Z) :
  (let maxChannel := r8 in
   let maxChannel := if maxChannel <? g8 then g8 else maxChannel in
   if maxChannel <? b8 then b8 else maxChannel) = Z.max (Z.max r8 g8) b8.
Proof.
  cbv zeta. destruct (Z.ltb_spec r8 g8).
  - destruct (Z.ltb_spec g8 b8); lia.
  - destruct (Z.ltb_spec r8 b8); lia.
Qed.

Section AlphaLoop.

Variable h : Heap.
Variable img : Image.
Variable bounds : Rectangle.

Hypothesis Hvalid : valid_image h img bounds.
Hypothesis Hfits : Dx bounds * Dy bounds < 2 ^ 63.

Let width := Dx bounds.
Let height := Dy bounds.
Let value (x y : Z) : F32.t :=
  alphaOf (maxRGB (pixelOf h img (X (Min bounds) + x) (Y (Min bounds) + y))).

Let body (y : Z) (alphaMap : list F32.t) (x : Z) : M (list F32.t) :=
  c <- At img (GoInt.add (X (Min bounds)) x) (GoInt.add (Y (Min bounds)) y);;
  let r8 := Z.shiftr (color.r c) 8 in
  let g8 := Z.shiftr (color.g c) 8 in
  let b8 := Z.shiftr (color.b c) 8 in
  let maxChannel := r8 in
  let maxChannel := if maxChannel <? g8 then g8 else maxChannel in
  let maxChannel := if maxChannel <? b8 then b8 else maxChannel in
  store alphaMap (GoInt.add (GoInt.mul y width) x)
        (F32.div (F32.of_Z maxChannel) (F32.of_Z 255)).

Lemma alpha_dims :
  0 <= width /\ 0 <= height
  /\ width = X (Max bounds) - X (Min bounds)
  /\ height = Y (Max bounds) - Y (Min bounds).
Proof.
  destruct Hvalid as [_ Hr]. subst width height.
  rewrite valid_rect_Dx, valid_rect_Dy by assumption.
  destruct Hr as (? & ? & _). lia.
Qed.

Lemma alpha_index (x y : Z) :
  0 <= x < width -> 0 <= y < height ->
  0 <= y * width + x < width * height.
Proof.
  intros Hx Hy.
  assert (0 <= y * width) by (apply Z.mul_nonneg_nonneg; lia).
  assert (y * width <= (height - 1) * width)
    by (apply Z.mul_le_mono_nonneg_r; lia).
  lia.
Qed.

Lemma alpha_body_run (y x : Z) (alphaMap : list F32.t) :
  0 <= x < width -> 0 <= y < height ->
  Z.of_nat (length alphaMap) = width * height ->
  body y alphaMap x h = Some (<[Z.to_nat (y * width + x) := value x y]> alphaMap, h).
Proof.
  intros Hx Hy Hlen. pose proof (alpha_index x y Hx Hy) as Hidx.
  pose proof alpha_dims as (Hw & Hh & HW & HH).
  destruct Hvalid as [Hb (_ & _ & _ & _ & Hx0 & Hx1 & Hy0 & Hy1)].
  assert (0 <= y * width) by (apply Z.mul_nonneg_nonneg; lia).
  assert (Hfits' : width * height < 2 ^ 63) by exact Hfits.
  unfold body, bind.
  rewrite int_mul_id by int_range.
  rewrite !int_add_id by int_range.
  rewrite (At_run h img bounds) by assumption.
  rewrite maxChannel_max. rewrite store_run by lia. reflexivity.
Qed.

Lemma alpha_row (n : nat) (y : Z) (alphaMap : list F32.t) :
  Z.of_nat n <= width -> 0 <= y < height ->
  Z.of_nat (length alphaMap) = width * height ->
  exists alphaMap',
    foldM (body y) alphaMap (seqZ 0 (Z.of_nat n)) h = Some (alphaMap', h)
    /\ Z.of_nat (length alphaMap') = width * height
    /\ (forall i, 0 <= i -> i < y * width \/ y * width + Z.of_nat n <= i ->
          alphaMap' !! Z.to_nat i = alphaMap !! Z.to_nat i)
    /\ (forall x, 0 <= x < Z.of_nat n ->
          alphaMap' !! Z.to_nat (y * width + x) = Some (value x y)).
Proof.
  intros Hn Hy Hlen.
  assert (Hyw : 0 <= y * width)
    by (apply Z.mul_nonneg_nonneg; [lia | apply alpha_dims]).
  induction n as [|n IH].
  - exists alphaMap. split; [reflexivity|]. split; [assumption|].
    split; [reflexivity | lia].
  - assert (Hle : Z.of_nat n <= width) by lia. specialize (IH Hle).
    destruct IH as (am1 & Hrun & Hlen1 & Hkeep & Hset).
    rewrite seqZ_S, foldM_app, Hrun. cbn [foldM]. unfold bind at 1.
    rewrite Z.add_0_l, alpha_body_run by (try assumption; lia).
    pose proof (alpha_index (Z.of_nat n) y ltac:(lia) Hy) as Hidx.
    eexists. split; [reflexivity|].
    split; [rewrite length_insert; assumption|].
    split.
    + intros i Hi Hout. rewrite list_lookup_insert_ne by lia.
      apply Hkeep; lia.
    + intros x Hx. destruct (Z.eq_dec x (Z.of_nat n)) as [->|Hne].
      * rewrite list_lookup_insert_eq by lia. reflexivity.
      * rewrite list_lookup_insert_ne by lia. apply Hset. lia.
Qed.

Lemma alpha_rows (m : nat) (alphaMap : list F32.t) :
  Z.of_nat m <= height ->
  Z.of_nat (length alphaMap) = width * height ->
  exists alphaMap',
    foldM (fun alphaMap y => foldM (body y) alphaMap (seqZ 0 width))
          alphaMap (seqZ 0 (Z.of_nat m)) h = Some (alphaMap', h)
    /\ Z.of_nat (length alphaMap') = width * height
    /\ (forall x y, 0 <= x < width -> 0 <= y < Z.of_nat m ->
          alphaMap' !! Z.to_nat (y * width + x) = Some (value x y)).
Proof.
  intros Hm Hlen. pose proof alpha_dims as (Hw & Hh & _).
  induction m as [|m IH].
  - exists alphaMap. split; [reflexivity|]. split; [assumption | lia].
  - assert (Hle : Z.of_nat m <= height) by lia. specialize (IH Hle).
    destruct IH as (am1 & Hrun & Hlen1 & Hset).
    rewrite seqZ_S, foldM_app, Hrun. cbn [foldM]. unfold bind at 1.
    rewrite Z.add_0_l.
    destruct (alpha_row (Z.to_nat width) (Z.of_nat m) am1)
      as (am2 & Hrun2 & Hlen2 & Hkeep2 & Hset2); try lia.
    rewrite Z2Nat.id in Hrun2, Hkeep2, Hset2 by assumption.
    rewrite Hrun2. exists am2. split; [reflexivity|]. split; [assumption|].
    intros x y Hx Hy. destruct (Z.eq_dec y (Z.of_nat m)) as [->|Hne].
    + apply Hset2. assumption.
    + pose proof (alpha_index x y Hx ltac:(lia)) as Hidx.
      assert (y * width <= (Z.of_nat m - 1) * width)
        by (apply Z.mul_le_mono_nonneg_r; lia).
      rewrite Hkeep2 by lia. apply Hset; lia.
Qed.

Lemma CalculateAlphaMap_run :
  exists alphaMap,
    CalculateAlphaMap img h = Some (alphaMap, h)
    /\ Z.of_nat (length alphaMap) = width * height
    /\ (forall x y, 0 <= x < width -> 0 <= y < height ->
          alphaMap !! Z.to_nat (y * width + x) = Some (value x y)).
Proof.
  pose proof alpha_dims as (Hw & Hh & _).
  assert (Hmul : 0 <= width * height) by (apply Z.mul_nonneg_nonneg; lia).
  destruct (alpha_rows (Z.to_nat height)
              (replicate (Z.to_nat (width * height)) (S754_zero false)))
    as (am & Hrun & Hlen & Hset); try lia.
  { rewrite length_replicate. lia. }
  rewrite Z2Nat.id in Hrun, Hset by assumption.
  exists am. split; [|split; assumption].
  unfold CalculateAlphaMap, bind. destruct Hvalid as [Hb _]. rewrite Hb.
  fold width height. unfold make.
  assert (Hfits' : width * height < 2 ^ 63) by exact Hfits.
  rewrite int_mul_id by int_range.
  destruct (Z.ltb_spec (width * height) 0); [lia|].
  unfold ret at 1. exact Hrun.
Qed.

End AlphaLoop.

(** A property of all bytes, checked by running through them. *)
Lemma forall_bytes (P : Z -> bool) :
  forallb P (seqZ 0 256) = true -> forall k, 0 <= k <= 255 -> P k = true.
Proof.
  intros Hall k Hk. rewrite forallb_forall in Hall. apply Hall.
  apply list_elem_of_In, elem_of_seqZ. lia.
Qed.

Lemma alphaOf_unit_interval (k : Z) :
  0 <= k <= 255 -> unit_interval (alphaOf k) = true.
Proof.
  revert k. apply forall_bytes. vm_compute. reflexivity.
Qed.

Lemma shiftr8_range (v : Z) : 0 <= v <= 65535 -> 0 <= Z.shiftr v 8 <= 255.
Proof.
  intros Hv. rewrite Z.shiftr_div_pow2 by lia. change (2 ^ 8) with 256.
  split; [apply Z.div_pos; lia|].
  assert (v / 256 < 256) by (apply Z.div_lt_upper_bound; lia). lia.
Qed.

Lemma maxRGB_range (c : color.Color) : color16 c -> 0 <= maxRGB c <= 255.
Proof.
  intros (Hr & Hg & Hb & _). unfold maxRGB.
  apply shiftr8_range in Hr, Hg, Hb. lia.
Qed.

Lemma index_split (i w hh : Z) :
  0 <= i < w * hh -> 0 <= w -> 0 <= hh ->
  0 <= i / w < hh /\ 0 <= i mod w < w /\ i = i / w * w + i mod w.
Proof.
  intros Hi Hw Hh. assert (0 < w) by nia.
  pose proof (Z.mod_pos_bound i w ltac:(lia)).
  pose proof (Z.div_mod i w ltac:(lia)).
  split; [|split; [assumption | lia]].
  split; [apply Z.div_pos; lia|].
  apply Z.div_lt_upper_bound; lia.
Qed.

(** C5. [CalculateAlphaMap] returns one entry per pixel, in row-major
    order; the entry of pixel [(row, col)] is the quotient of the
    brightest of its R, G, B channels by 255; the entries lie between
    zero and one, a black reference gives zeros and a white reference
    gives ones. *)
Theorem CalculateAlphaMap_row_major (h : Heap) (img : Image) (bounds : Rectangle) :
  valid_image h img bounds -> Dx bounds * Dy bounds < 2 ^ 63 ->
  exists alphaMap,
    CalculateAlphaMap img h = Some (alphaMap, h)
    /\ Z.of_nat (length alphaMap) = Dx bounds * Dy bounds
    /\ (forall size, Dx bounds = size -> Dy bounds = size ->
          Z.of_nat (length alphaMap) = size * size)
    /\ (forall row col, 0 <= row < Dy bounds -> 0 <= col < Dx bounds ->
          alphaMap !! Z.to_nat (row * Dx bounds + col)
          = Some (alphaOf (maxRGB (pixelOf h img (X (Min bounds) + col)
                                                 (Y (Min bounds) + row)))))
    /\ ((forall x y, color16 (pixelOf h img x y)) ->
          Forall (fun a => unit_interval a = true) alphaMap)
    /\ ((forall x y, PointIn x y bounds = true ->
           color.r (pixelOf h img x y) = 0 /\ color.g (pixelOf h img x y) = 0
           /\ color.b (pixelOf h img x y) = 0) ->
          Forall (fun a => a = F32.of_Z 0) alphaMap)
    /\ ((forall x y, PointIn x y bounds = true ->
           color.r (pixelOf h img x y) = 65535 /\ color.g (pixelOf h img x y) = 65535
           /\ color.b (pixelOf h img x y) = 65535) ->
          Forall (fun a => a = F32.of_Z 1) alphaMap).
Proof.
  intros Hv Hfits.
  destruct (CalculateAlphaMap_run h img bounds Hv Hfits) as (am & Hrun & Hlen & Hset).
  pose proof (alpha_dims h img bounds Hv) as (Hw & Hh & HW & HH).
  assert (Hentry : forall i a, am !! i = Some a ->
            exists row col,
              0 <= row < Dy bounds /\ 0 <= col < Dx bounds
              /\ a = alphaOf (maxRGB (pixelOf h img (X (Min bounds) + col)
                                                    (Y (Min bounds) + row)))).
  { intros i a Hi. pose proof (lookup_lt_Some _ _ _ Hi) as Hlt.
    destruct (index_split (Z.of_nat i) (Dx bounds) (Dy bounds)) as (Hr & Hc & Heq);
      try lia.
    exists (Z.of_nat i / Dx bounds), (Z.of_nat i mod Dx bounds).
    split; [assumption|]. split; [assumption|].
    pose proof (Hset _ _ Hc Hr) as Hs.
    rewrite <- Heq, Nat2Z.id, Hi in Hs. congruence. }
  exists am. split; [exact Hrun|]. split; [exact Hlen|].
  split. { intros size <- Hs. rewrite Hlen, Hs. reflexivity. }
  split. { intros row col Hr Hc. apply Hset; assumption. }
  split; [|split].
  - intros Hcol. apply Forall_lookup. intros i a Hi.
    destruct (Hentry i a Hi) as (row & col & _ & _ & ->).
    apply alphaOf_unit_interval, maxRGB_range, Hcol.
  - intros Hblack. apply Forall_lookup. intros i a Hi.
    destruct (Hentry i a Hi) as (row & col & Hr & Hc & ->).
    destruct (Hblack (X (Min bounds) + col) (Y (Min bounds) + row))
      as (Er & Eg & Eb); [apply PointIn_spec; lia|].
    unfold maxRGB. rewrite Er, Eg, Eb. reflexivity.
  - intros Hwhite. apply Forall_lookup. intros i a Hi.
    destruct (Hentry i a Hi) as (row & col & Hr & Hc & ->).
    destruct (Hwhite (X (Min bounds) + col) (Y (Min bounds) + row))
      as (Er & Eg & Eb); [apply PointIn_spec; lia|].
    unfold maxRGB. rewrite Er, Eg, Eb. reflexivity.
Qed.


Lemma CalculateAlphaMap_row_major_witness :
  exists alphaMap,
    CalculateAlphaMap sampleReference [] = Some (alphaMap, [])
    /\ Z.of_nat (length alphaMap) = 6
    /\ alphaMap !! 4%nat = Some (alphaOf 128).
Proof.
  destruct (CalculateAlphaMap_row_major [] sampleReference (Rect 0 0 3 2))
    as (am & Hrun & Hlen & _ & Hentry & _).
  - split; [reflexivity|]. unfold valid_rect, GoInt.in_int. cbn. lia.
  - change (6 < 2 ^ 63). lia.
  - exists am. split; [exact Hrun|]. split; [exact Hlen|].
    exact (Hentry 1 1 ltac:(change (0 <= 1 < 2); lia) ltac:(change (0 <= 1 < 3); lia)).
Defined.

(** ** Numeric safety of the blend *)

Lemma blendTable_lookup (alpha : F32.t) (w : Z) :
  0 <= w <= 255 ->
  blendTable alpha !! Z.to_nat w
  = Some (F64.is_finite (blendQuotient alpha w),
          F64.trunc (clamp (blendQuotient alpha w) (F64.of_Z 0) (F64.of_Z 255))).
Proof.
  intros Hw. unfold blendTable. cbv zeta.
  rewrite list_lookup_fmap, lookup_seqZ_lt by lia.
  rewrite Z.add_0_l, Z2Nat.id by lia. reflexivity.
Qed.

Lemma rowChecks_all (k : Z) : 0 <= k <= 255 -> rowChecks k = true.
Proof.
  revert k. apply forall_bytes. vm_cast_no_check (eq_refl true).
Qed.

Lemma forallb_lookup {T} (f : T -> bool) (l : list T) (i : nat) (v : T) :
  forallb f l = true -> l !! i = Some v -> f v = true.
Proof.
  intros Hall Hi. rewrite forallb_forall in Hall. apply Hall.
  apply list_elem_of_In. eapply list_elem_of_lookup_2. eassumption.
Qed.

Lemma blendChecks_all (k w : Z) :
  0 <= k <= 255 -> 0 <= w <= 255 -> blendChecks (alphaOf k) w = true.
Proof.
  intros Hk Hw. pose proof (rowChecks_all k Hk) as Hrow.
  unfold rowChecks in Hrow. cbv zeta in Hrow.
  apply andb_true_iff in Hrow as [Hrow _].
  unfold blendRowChecks in Hrow. cbv zeta in Hrow.
  rewrite !andb_true_iff in Hrow.
  destruct Hrow as (((((H1 & H2) & H3) & H4) & H5) & _).
  pose proof (forallb_lookup _ _ _ _ H5 (blendTable_lookup (alphaOf k) w Hw)) as Hq.
  cbn [fst snd] in Hq.
  unfold blendChecks. cbv zeta.
  rewrite H1, H2, H3, H4. exact Hq.
Qed.

Lemma RemoveWatermark_returns (e : Engine) (img : Image) (h : Heap) (bounds : Rectangle) :
  wf_engine e -> valid_image h img bounds ->
  exists out, RemoveWatermark e img h = Some (RGBARef (length h), h ++ [out]).
Proof.
  intros He Hv.
  destruct (RemoveWatermark_pixels e img h bounds He Hv) as (out & Hrun & _).
  exists out. exact Hrun.
Qed.

(** C9, as the code has it.  The blend never fails: [RemoveWatermark]
    returns on every image, and for every alpha value an alpha map can
    hold and every channel byte the clamped alpha is at most [MaxAlpha],
    the denominator is finite and at least [1 - MaxAlpha], which is
    positive, the quotient is finite, and its clamp truncates to a byte,
    so that the conversion to [uint8] changes nothing.  The bound
    [1 - MaxAlpha] is the binary number 167772 / 2^24, just under one
    hundredth, because [MaxAlpha] is 0.99 rounded to [float32]. *)
Theorem blend_never_fails
    (e : Engine) (img : Image) (h : Heap) (bounds : Rectangle) (k w : Z) :
  wf_engine e -> valid_image h img bounds ->
  0 <= k <= 255 -> 0 <= w <= 255 ->
  (exists out, RemoveWatermark e img h = Some (RGBARef (length h), h ++ [out]))
  /\ F32.leb (clampAlpha (alphaOf k)) MaxAlpha = true
  /\ F64.leb (F64.sub (F64.of_Z 1) (F64.of_f32 MaxAlpha))
             (oneMinusAlpha (alphaOf k)) = true
  /\ F64.sub (F64.of_Z 1) (F64.of_f32 MaxAlpha)
     = S754_finite false (167772 * 2 ^ 35) (-59)
  /\ F64.ltb (F64.of_Z 0) (oneMinusAlpha (alphaOf k)) = true
  /\ F64.is_finite (oneMinusAlpha (alphaOf k)) = true
  /\ F64.is_finite (blendQuotient (alphaOf k) w) = true
  /\ 0 <= F64.trunc (clamp (blendQuotient (alphaOf k) w) (F64.of_Z 0) (F64.of_Z 255))
     <= 255
  /\ reverseBlend (alphaOf k) w
     = F64.trunc (clamp (blendQuotient (alphaOf k) w) (F64.of_Z 0) (F64.of_Z 255)).
Proof.
  intros He Hv Hk Hw.
  split; [eapply RemoveWatermark_returns; eassumption|].
  pose proof (blendChecks_all k w Hk Hw) as Hc. unfold blendChecks in Hc.
  cbv zeta in Hc. rewrite !andb_true_iff in Hc.
  destruct Hc as ((((((H1 & H2) & H3) & H4) & H5) & H6) & H7).
  apply Z.leb_le in H6, H7.
  repeat (split; [first [assumption | reflexivity]|]).
  split; [split; assumption|].
  unfold reverseBlend. apply uint8_id. lia.
Qed.

Lemma blend_never_fails_witness :
  (exists out, RemoveWatermark sampleEngine sampleImage [] = Some (RGBARef 0, [out]))
  /\ reverseBlend (alphaOf 255) 253 = 54.
Proof.
  destruct (blend_never_fails sampleEngine sampleImage [] sampleBounds 255 253
              sampleEngine_wf sampleImage_valid ltac:(lia) ltac:(lia))
    as (Hrun & _ & _ & _ & _ & _ & _ & _ & Heq).
  split; [exact Hrun|]. rewrite Heq. vm_compute. reflexivity.
Defined.

(** C9, as the specification states it, fails: at alpha 1 the clamped
    alpha is [MaxAlpha], above 0.99, and the denominator is
    167772 / 2^24 = 5764602025476096 / 2^59, below one hundredth. *)
Lemma denominator_below_one_hundredth :
  ~ F64.leb (F64.const 1 100) (oneMinusAlpha (alphaOf 255)) = true
  /\ oneMinusAlpha (alphaOf 255) = S754_finite false 5764602025476096 (-59)
  /\ 100 * 5764602025476096 < 2 ^ 59.
Proof.
  split; [|split; reflexivity].
  vm_compute. discriminate.
Qed.

(** ** Round trip *)


Lemma watermarkRect_eq (bounds : Rectangle) :
  watermarkRect bounds =
    CalculatePosition (Dx bounds) (Dy bounds) (DetectConfig (Dx bounds) (Dy bounds)).
Proof. reflexivity. Qed.

Lemma watermarkRect_row_col (bounds : Rectangle) (x y : Z) :
  valid_rect bounds ->
  PointIn x y (watermarkRect bounds) = true ->
  0 <= y - Y (Min (watermarkRect bounds)) < Size (DetectConfig (Dx bounds) (Dy bounds))
  /\ 0 <= x - X (Min (watermarkRect bounds)) < Size (DetectConfig (Dx bounds) (Dy bounds)).
Proof.
  intros Hr Hwm. rewrite watermarkRect_eq in *.
  pose proof Hr as (Hx & Hy & Hw & Hh & _).
  assert (HW : 0 <= Dx bounds < 2 ^ 63) by (rewrite valid_rect_Dx by assumption; lia).
  assert (HH : 0 <= Dy bounds < 2 ^ 63) by (rewrite valid_rect_Dy by assumption; lia).
  rewrite (position_In (Dx bounds) (Dy bounds) x y HW HH) in Hwm.
  cbv zeta in Hwm.
  destruct (Z.leb_spec 0 (y - Y (Min (CalculatePosition (Dx bounds) (Dy bounds)
                                        (DetectConfig (Dx bounds) (Dy bounds))))));
    [|discriminate].
  destruct (Z.ltb_spec (y - Y (Min (CalculatePosition (Dx bounds) (Dy bounds)
                                      (DetectConfig (Dx bounds) (Dy bounds)))))
                       (Size (DetectConfig (Dx bounds) (Dy bounds))));
    [|discriminate].
  destruct (Z.leb_spec 0 (x - X (Min (CalculatePosition (Dx bounds) (Dy bounds)
                                        (DetectConfig (Dx bounds) (Dy bounds))))));
    [|discriminate].
  destruct (Z.ltb_spec (x - X (Min (CalculatePosition (Dx bounds) (Dy bounds)
                                      (DetectConfig (Dx bounds) (Dy bounds)))))
                       (Size (DetectConfig (Dx bounds) (Dy bounds))));
    [|discriminate].
  split; split; assumption.
Qed.







(** ** Reference assets *)

Section ReferenceAssets.

Variable bg48PNG bg96PNG : list Z.
Variable png_Decode : list Z -> Image + error.

(** C10. For every size other than 96, [LoadReferenceImage] answers
    what decoding the 48-pixel asset answers, the image as well as the
    error: the size is never a cause of failure. *)
Theorem LoadReferenceImage_defaults_to_48 (size : Z) :
  size <> 96 ->
  LoadReferenceImage bg48PNG bg96PNG png_Decode size = png_Decode bg48PNG
  /\ LoadReferenceImage bg48PNG bg96PNG png_Decode size
     = LoadReferenceImage bg48PNG bg96PNG png_Decode 48
  /\ (forall img, png_Decode bg48PNG = inl img ->
        LoadReferenceImage bg48PNG bg96PNG png_Decode size = inl img)
  /\ (forall err, LoadReferenceImage bg48PNG bg96PNG png_Decode size = inr err ->
        png_Decode bg48PNG = inr err)
  /\ LoadReferenceImage bg48PNG bg96PNG png_Decode 96 = png_Decode bg96PNG.
Proof.
  intros Hsize. unfold LoadReferenceImage.
  destruct (Z.eqb_spec size 96) as [|_]; [contradiction|].
  assert (Heq : (if size =? 48 then bg48PNG else bg48PNG) = bg48PNG)
    by (destruct (size =? 48); reflexivity).
  rewrite Heq. cbn. repeat split; auto.
Qed.

End ReferenceAssets.

Lemma LoadReferenceImage_defaults_to_48_witness :
  LoadReferenceImage [48] [96] sampleDecode (-1) = sampleDecode [48]
  /\ LoadReferenceImage [48] [96] sampleDecode 64
     = LoadReferenceImage [48] [96] sampleDecode 48.
Proof.
  destruct (LoadReferenceImage_defaults_to_48 [48] [96] sampleDecode (-1) ltac:(lia))
    as (H1 & _).
  destruct (LoadReferenceImage_defaults_to_48 [48] [96] sampleDecode 64 ltac:(lia))
    as (_ & H2 & _).
  split; assumption.
Defined.


(** * Further properties *)

(** ** [clamp] *)

Lemma SFcompare_refl (x : spec_float) :
  isNaN x = false -> SFcompare x x = Some Eq.
Proof.
  destruct x as [s|s| |s m e]; simpl; try discriminate; intros _.
  - reflexivity.
  - destruct s; reflexivity.
  - destruct s; rewrite Z.compare_refl, Pos.compare_cont_refl; reflexivity.
Qed.

Lemma SFcompare_defined (x y : spec_float) :
  isNaN x = false -> isNaN y = false -> exists c, SFcompare x y = Some c.
Proof.
  destruct x as [sx|sx| |sx mx ex], y as [sy|sy| |sy my ey]; simpl;
    try discriminate; intros _ _; eauto.
Qed.

Lemma leb_not_NaN (x y : spec_float) :
  SFleb x y = true -> isNaN x = false /\ isNaN y = false.
Proof.
  unfold SFleb.
  destruct x as [sx|sx| |sx mx ex], y as [sy|sy| |sy my ey]; simpl;
    try discriminate; intros _; split; reflexivity.
Qed.

Lemma not_ltb_leb (x y : spec_float) :
  isNaN x = false -> isNaN y = false -> SFltb x y = false -> SFleb y x = true.
Proof.
  intros Hx Hy. unfold SFltb, SFleb. rewrite (SFcompare_antisym x y).
  destruct (SFcompare_defined x y Hx Hy) as [c ->]. destruct c; simpl; congruence.
Qed.

Lemma leb_refl (x : spec_float) : isNaN x = false -> SFleb x x = true.
Proof. intros Hx. unfold SFleb. rewrite SFcompare_refl by assumption. reflexivity. Qed.

Lemma ltb_irrefl (x : spec_float) : SFltb x x = false.
Proof.
  unfold SFltb. destruct (isNaN x) eqn:Hx.
  - destruct x; try discriminate. reflexivity.
  - rewrite SFcompare_refl by assumption. reflexivity.
Qed.

(** X1. With ordered bounds, [clamp] brings every value that is not NaN
    into the range: [min <= clamp(value, min, max) <= max]. *)
Theorem clamp_in_range (value min max : F64.t) :
  F64.leb min max = true -> isNaN value = false ->
  F64.leb min (clamp value min max) = true
  /\ F64.leb (clamp value min max) max = true.
Proof.
  unfold clamp, F64.leb, F64.ltb. intros Hmm Hv.
  destruct (leb_not_NaN _ _ Hmm) as [Hmin Hmax].
  destruct (SFltb value min) eqn:H1.
  - split; [apply leb_refl; assumption | assumption].
  - destruct (SFltb max value) eqn:H2.
    + split; [assumption | apply leb_refl; assumption].
    + split; apply not_ltb_leb; assumption.
Qed.

Lemma clamp_in_range_witness :
  F64.leb (F64.of_Z 0) (clamp (F64.of_Z 150) (F64.of_Z 0) (F64.of_Z 100)) = true
  /\ F64.leb (clamp (F64.of_Z 150) (F64.of_Z 0) (F64.of_Z 100)) (F64.of_Z 100) = true.
Proof.
  apply (clamp_in_range (F64.of_Z 150) (F64.of_Z 0) (F64.of_Z 100)); reflexivity.
Defined.

(** X2. [clamp] returns its argument unchanged when the argument lies
    within the bounds, and also when it is NaN: a NaN is not replaced by
    a bound. *)
Theorem clamp_passes_through (value min max : F64.t) :
  (F64.leb min value = true /\ F64.leb value max = true) \/ isNaN value = true ->
  clamp value min max = value.
Proof.
  unfold clamp, F64.leb, F64.ltb. intros [[Hlo Hhi] | Hnan].
  - rewrite (leb_not_ltb _ _ Hlo), (leb_not_ltb _ _ Hhi). reflexivity.
  - destruct value; try discriminate. destruct min, max; reflexivity.
Qed.

Lemma clamp_passes_through_witness :
  clamp (F64.const 1 2) (F64.of_Z 0) (F64.of_Z 1) = F64.const 1 2
  /\ clamp S754_nan (F64.of_Z 0) (F64.of_Z 255) = S754_nan.
Proof.
  split.
  - apply clamp_passes_through. left. split; reflexivity.
  - apply clamp_passes_through. right. reflexivity.
Defined.

(** X3. With ordered bounds [clamp] is idempotent, for every value. *)
Theorem clamp_idempotent (value min max : F64.t) :
  F64.leb min max = true ->
  clamp (clamp value min max) min max = clamp value min max.
Proof.
  unfold F64.leb. intros Hmm.
  destruct (SFltb value min) eqn:H1; [|destruct (SFltb max value) eqn:H2].
  - assert (E : clamp value min max = min)
      by (unfold clamp, F64.ltb; rewrite H1; reflexivity).
    rewrite E. unfold clamp, F64.ltb.
    rewrite ltb_irrefl, (leb_not_ltb _ _ Hmm). reflexivity.
  - assert (E : clamp value min max = max)
      by (unfold clamp, F64.ltb; rewrite H1, H2; reflexivity).
    rewrite E. unfold clamp, F64.ltb.
    rewrite (leb_not_ltb _ _ Hmm), ltb_irrefl. reflexivity.
  - assert (E : clamp value min max = value)
      by (unfold clamp, F64.ltb; rewrite H1, H2; reflexivity).
    rewrite E. exact E.
Qed.

Lemma clamp_idempotent_witness :
  clamp (clamp (F64.of_Z (-10)) (F64.of_Z 0) (F64.of_Z 100)) (F64.of_Z 0) (F64.of_Z 100)
  = clamp (F64.of_Z (-10)) (F64.of_Z 0) (F64.of_Z 100).
Proof.
  apply clamp_idempotent. reflexivity.
Defined.

(** ** The geometry [GetWatermarkInfo] reports *)



(** ** Construction of the engine *)

Section EngineConstruction.

Variable bg48PNG bg96PNG : list Z.
Variable png_Decode : list Z -> Image + error.

Lemma LoadReferenceImage_48 :
  LoadReferenceImage bg48PNG bg96PNG png_Decode 48 = png_Decode bg48PNG.
Proof. reflexivity. Qed.

Lemma LoadReferenceImage_96 :
  LoadReferenceImage bg48PNG bg96PNG png_Decode 96 = png_Decode bg96PNG.
Proof. reflexivity. Qed.

(** X5. [NewEngine] reports the decoding error of the first asset that
    fails to decode, wrapped with the size of that asset, and leaves the
    heap as it was: the 48-pixel asset is tried first, the 96-pixel
    asset only after the 48-pixel map has been computed. *)
Theorem NewEngine_decode_error (h : Heap) :
  (forall err,
      png_Decode bg48PNG = inr err ->
      NewEngine bg48PNG bg96PNG png_Decode h = Some (inr (Wrapped 48 err), h))
  /\ (forall img48 b48 err,
        png_Decode bg48PNG = inl img48 ->
        valid_image h img48 b48 -> Dx b48 * Dy b48 < 2 ^ 63 ->
        png_Decode bg96PNG = inr err ->
        NewEngine bg48PNG bg96PNG png_Decode h = Some (inr (Wrapped 96 err), h)).
Proof.
  split.
  - intros err H48. unfold NewEngine. rewrite LoadReferenceImage_48, H48. reflexivity.
  - intros img48 b48 err H48 Hv Hfits H96. unfold NewEngine.
    rewrite LoadReferenceImage_48, H48. unfold bind.
    destruct (CalculateAlphaMap_run h img48 b48 Hv Hfits) as (am & Hrun & _).
    rewrite Hrun, LoadReferenceImage_96, H96. reflexivity.
Qed.

(** X6. When the two assets decode to images of 48 by 48 and 96 by 96
    pixels, [NewEngine] returns an engine whose maps are the alpha maps
    of the two images, with 2304 and 9216 entries, and the heap is
    unchanged. *)
Theorem NewEngine_well_formed
    (h : Heap) (img48 img96 : Image) (b48 b96 : Rectangle) :
  png_Decode bg48PNG = inl img48 -> png_Decode bg96PNG = inl img96 ->
  valid_image h img48 b48 -> valid_image h img96 b96 ->
  Dx b48 = 48 -> Dy b48 = 48 -> Dx b96 = 96 -> Dy b96 = 96 ->
  exists e,
    NewEngine bg48PNG bg96PNG png_Decode h = Some (inl e, h)
    /\ wf_engine e
    /\ CalculateAlphaMap img48 h = Some (alphaMap48 e, h)
    /\ CalculateAlphaMap img96 h = Some (alphaMap96 e, h).
Proof.
  intros H48 H96 Hv48 Hv96 Hw48 Hh48 Hw96 Hh96.
  destruct (CalculateAlphaMap_run h img48 b48 Hv48) as (am48 & Hrun48 & Hlen48 & _).
  { rewrite Hw48, Hh48. lia. }
  destruct (CalculateAlphaMap_run h img96 b96 Hv96) as (am96 & Hrun96 & Hlen96 & _).
  { rewrite Hw96, Hh96. lia. }
  exists (mkEngine am48 am96). split.
  - unfold NewEngine. rewrite LoadReferenceImage_48, H48. unfold bind.
    rewrite Hrun48, LoadReferenceImage_96, H96, Hrun96. reflexivity.
  - split; [|split; assumption].
    unfold wf_engine. cbn [alphaMap48 alphaMap96].
    rewrite Hlen48, Hlen96, Hw48, Hh48, Hw96, Hh96. split; reflexivity.
Qed.

End EngineConstruction.

Lemma NewEngine_decode_error_witness :
  NewEngine [] [96] sampleDecode [] = Some (inr (Wrapped 48 (DecodeError 0)), [])
  /\ NewEngine [48] [] sampleDecode [] = Some (inr (Wrapped 96 (DecodeError 0)), []).
Proof.
  destruct (NewEngine_decode_error [] [96] sampleDecode []) as [H48 _].
  destruct (NewEngine_decode_error [48] [] sampleDecode []) as [_ H96].
  split.
  - apply H48. reflexivity.
  - apply (H96 (Other (Rect 0 0 48 48) (fun x y => color.mkColor 0 0 0 65535))
               (Rect 0 0 48 48)); try reflexivity.
    split; [reflexivity|]. unfold valid_rect, GoInt.in_int. cbn. lia.
Defined.

Lemma NewEngine_well_formed_witness :
  exists e,
    NewEngine [48] [96] sampleDecode [] = Some (inl e, [])
    /\ wf_engine e.
Proof.
  destruct (NewEngine_well_formed [48] [96] sampleDecode []
              (Other (Rect 0 0 48 48) (fun x y => color.mkColor 0 0 0 65535))
              (Other (Rect 0 0 96 96) (fun x y => color.mkColor 0 0 0 65535))
              (Rect 0 0 48 48) (Rect 0 0 96 96) eq_refl eq_refl)
    as (e & Hrun & Hwf & _); try reflexivity.
  - split; [reflexivity|]. unfold valid_rect, GoInt.in_int. cbn. lia.
  - split; [reflexivity|]. unfold valid_rect, GoInt.in_int. cbn. lia.
  - exists e. split; assumption.
Defined.

(** ** More on [RemoveWatermark] *)

Lemma reverseBlend_byte (alpha : F32.t) (w : Z) : 0 <= reverseBlend alpha w < 256.
Proof. unfold reverseBlend. apply uint8_range. Qed.

Lemma restorePixel_bytes (alpha : F32.t) (c : color.RGBA) :
  byte_pixel c -> byte_pixel (restorePixel alpha c).
Proof.
  intros (_ & _ & _ & HA). unfold byte_pixel, restorePixel.
  cbn [color.R color.G color.B color.A].
  repeat split; try apply reverseBlend_byte; lia.
Qed.

Lemma valid_rect_dims (r : Rectangle) :
  valid_rect r -> 0 <= Dx r < 2 ^ 63 /\ 0 <= Dy r < 2 ^ 63.
Proof.
  intros Hr. rewrite valid_rect_Dx, valid_rect_Dy by assumption.
  destruct Hr as (? & ? & ? & ? & _). lia.
Qed.

Lemma config_sizes (width height : Z) :
  32 <= Margin (DetectConfig width height) <= 64
  /\ 48 <= Size (DetectConfig width height) <= 96
  /\ (width <= 1024 \/ height <= 1024 -> DetectConfig width height = mkConfig 48 32).
Proof.
  unfold DetectConfig.
  destruct (Z.ltb_spec 1024 width), (Z.ltb_spec 1024 height);
    cbn [andb Size Margin]; repeat split; try lia; intros [?|?]; lia.
Qed.

(** X7. Every channel [RemoveWatermark] stores is a byte, whatever the
    input colours are; its result is an image of the heap with the
    bounds of the input, on which [RemoveWatermark] runs again, and the
    second pass leaves the pixels outside the watermark rectangle as
    the first pass left them. *)
Theorem RemoveWatermark_result_is_image
    (e : Engine) (img : Image) (h : Heap) (bounds : Rectangle) :
  wf_engine e -> valid_image h img bounds ->
  exists out,
    RemoveWatermark e img h = Some (RGBARef (length h), h ++ [out])
    /\ valid_image (h ++ [out]) (RGBARef (length h)) bounds
    /\ (forall x y, byte_pixel (image.RGBAAt out x y))
    /\ exists out2,
        RemoveWatermark e (RGBARef (length h)) (h ++ [out])
          = Some (RGBARef (length (h ++ [out])), (h ++ [out]) ++ [out2])
        /\ forall x y,
            PointIn x y bounds = true ->
            PointIn x y (watermarkRect bounds) = false ->
            image.RGBAAt out2 x y = image.RGBAAt out x y.
Proof.
  intros He Hv.
  destruct (RemoveWatermark_pixels e img h bounds He Hv)
    as (out & Hrun & Hwf & Hrc & Hat).
  assert (Hv2 : valid_image (h ++ [out]) (RGBARef (length h)) bounds).
  { split; [|apply Hv]. cbn [Bounds]. unfold bind. rewrite deref_last.
    unfold ret. rewrite Hrc. reflexivity. }
  assert (Hbytes : forall x y, byte_pixel (image.RGBAAt out x y)).
  { intros x y. rewrite Hat.
    destruct (_ && _).
    - apply restorePixel_bytes, toRGBA_bytes.
    - destruct (PointIn x y bounds); [apply toRGBA_bytes|].
      unfold byte_pixel, color.zero. cbn. lia. }
  exists out. split; [exact Hrun|]. split; [exact Hv2|]. split; [exact Hbytes|].
  destruct (RemoveWatermark_pixels e _ _ bounds He Hv2)
    as (out2 & Hrun2 & _ & _ & Hat2).
  exists out2. split; [exact Hrun2|].
  intros x y Hin Hnot. rewrite Hat2, Hnot, Hin. cbn [andb].
  unfold pixel8, pixelOf. rewrite lookup_app_r by lia.
  rewrite Nat.sub_diag. cbn [lookup list_lookup]. apply toRGBA_RGBA_RGBA, Hbytes.
Qed.

Lemma RemoveWatermark_result_is_image_witness :
  exists out,
    RemoveWatermark sampleEngine sampleImage [] = Some (RGBARef 0, [out])
    /\ byte_pixel (image.RGBAAt out 0 0).
Proof.
  destruct (RemoveWatermark_result_is_image sampleEngine sampleImage [] sampleBounds
              sampleEngine_wf sampleImage_valid)
    as (out & Hrun & _ & Hbytes & _).
  exists out. split; [exact Hrun | apply Hbytes].
Defined.

(** X8. An image at most 32 pixels wide or at most 32 pixels high is
    below the margin of the watermark: no watermark coordinate falls
    inside it, and the result is the plain copy of the input. *)
Theorem RemoveWatermark_small_image
    (e : Engine) (img : Image) (h : Heap) (bounds : Rectangle) :
  wf_engine e -> valid_image h img bounds ->
  Dx bounds <= 32 \/ Dy bounds <= 32 ->
  exists out,
    RemoveWatermark e img h = Some (RGBARef (length h), h ++ [out])
    /\ forall x y,
        image.RGBAAt out x y =
          if PointIn x y bounds then pixel8 h img x y else color.zero.
Proof.
  intros He Hv Hsmall.
  destruct (RemoveWatermark_pixels e img h bounds He Hv)
    as (out & Hrun & Hwf & Hrc & Hat).
  exists out. split; [exact Hrun|].
  intros x y. rewrite Hat.
  destruct (PointIn x y (watermarkRect bounds)) eqn:Hwm; [|reflexivity].
  destruct (outside (Dx bounds) (Dy bounds) x y) eqn:Hout; [reflexivity|].
  exfalso. destruct Hv as [_ Hr].
  destruct (watermarkRect_row_col bounds x y Hr Hwm) as [Hrow Hcol].
  destruct (valid_rect_dims bounds Hr) as [HW HH].
  rewrite watermarkRect_eq in Hrow, Hcol.
  rewrite (position_Min (Dx bounds) (Dy bounds) HW HH) in Hrow, Hcol.
  cbn [X Y] in Hrow, Hcol.
  pose proof (config_sizes (Dx bounds) (Dy bounds)) as (HM & HS & _).
  revert Hout. unfold outside. bool_cases.
Qed.

Lemma RemoveWatermark_small_image_witness :
  exists out,
    RemoveWatermark sampleEngine
      (Other (Rect 0 0 32 50) (fun x y => color.mkColor 65535 0 0 65535)) []
      = Some (RGBARef 0, [out])
    /\ image.RGBAAt out 31 49 = color.mkRGBA 255 0 0 255.
Proof.
  destruct (RemoveWatermark_small_image sampleEngine
              (Other (Rect 0 0 32 50) (fun x y => color.mkColor 65535 0 0 65535)) []
              (Rect 0 0 32 50) sampleEngine_wf)
    as (out & Hrun & Hat).
  - split; [reflexivity|]. unfold valid_rect, GoInt.in_int. cbn. lia.
  - left. change (32 <= 32). lia.
  - exists out. split; [exact Hrun|]. rewrite Hat. reflexivity.
Defined.

(** X9. The watermark coordinates are absolute: they are not shifted by
    the origin of the bounds.  A pixel whose coordinates are outside
    [[0, width) x [0, height)] is never restored, so that an image whose
    bounds start at or beyond [(width, height)], a sub-image for
    instance, is copied unchanged. *)
Theorem RemoveWatermark_absolute_coordinates
    (e : Engine) (img : Image) (h : Heap) (bounds : Rectangle) :
  wf_engine e -> valid_image h img bounds ->
  Dx bounds <= X (Min bounds) \/ Dy bounds <= Y (Min bounds) ->
  exists out,
    RemoveWatermark e img h = Some (RGBARef (length h), h ++ [out])
    /\ forall x y,
        image.RGBAAt out x y =
          if PointIn x y bounds then pixel8 h img x y else color.zero.
Proof.
  intros He Hv Horigin.
  destruct (RemoveWatermark_pixels e img h bounds He Hv)
    as (out & Hrun & Hwf & Hrc & Hat).
  exists out. split; [exact Hrun|].
  intros x y. rewrite Hat.
  destruct (PointIn x y bounds) eqn:Hin; [|rewrite andb_false_r; reflexivity].
  assert (Hout : outside (Dx bounds) (Dy bounds) x y = true).
  { apply PointIn_spec in Hin. unfold outside.
    destruct (Z.ltb_spec x 0), (Z.ltb_spec y 0),
      (Z.leb_spec (Dx bounds) x), (Z.leb_spec (Dy bounds) y);
      cbn [orb]; try reflexivity; lia. }
  rewrite Hout. cbn [negb andb]. rewrite andb_false_r. reflexivity.
Qed.

Lemma RemoveWatermark_absolute_coordinates_witness :
  exists out,
    RemoveWatermark sampleEngine
      (Other (Rect 100 100 200 200) (fun x y => color.mkColor 65535 0 0 65535)) []
      = Some (RGBARef 0, [out])
    /\ image.RGBAAt out 120 120 = color.mkRGBA 255 0 0 255.
Proof.
  destruct (RemoveWatermark_absolute_coordinates sampleEngine
              (Other (Rect 100 100 200 200) (fun x y => color.mkColor 65535 0 0 65535))
              [] (Rect 100 100 200 200) sampleEngine_wf)
    as (out & Hrun & Hat).
  - split; [reflexivity|]. unfold valid_rect, GoInt.in_int. cbn. lia.
  - left. change (100 <= 100). lia.
  - exists out. split; [exact Hrun|]. rewrite Hat. reflexivity.
Defined.

Lemma forM_snoc_Some {T} (l : list T) (i : T) (body : T -> M unit) (h : Heap)
    (r : unit * Heap) :
  forM_ (l ++ [i]) body h = Some r ->
  exists h', forM_ l body h = Some (tt, h') /\ body i h' = Some r.
Proof.
  rewrite forM_snoc. destruct (forM_ l body h) as [[[] h']|]; [|discriminate].
  intros Hbody. exists h'. split; [reflexivity | exact Hbody].
Qed.

Lemma seqZ_last (n : Z) : 0 < n -> seqZ 0 n = seqZ 0 (n - 1) ++ [n - 1].
Proof.
  intros Hn. replace n with (Z.of_nat (S (Z.to_nat (n - 1)))) at 1 by lia.
  rewrite seqZ_S, Z2Nat.id by lia. rewrite Z.add_0_l. reflexivity.
Qed.

Lemma removePixel_panics (result : nat) (width height : Z) (config : WatermarkConfig)
    (position : Rectangle) (alphaMap : list F32.t) (row col : Z) (h : Heap) :
  GoInt.in_int (X (Min position) + col) -> GoInt.in_int (Y (Min position) + row) ->
  GoInt.in_int (row * Size config) -> GoInt.in_int (row * Size config + col) ->
  outside width height (X (Min position) + col) (Y (Min position) + row) = false ->
  Z.of_nat (length alphaMap) <= row * Size config + col ->
  removePixel result width height config position alphaMap row col h = None.
Proof.
  intros HX HY Hmul Hadd Hout Hlen. unfold removePixel. unfold outside in Hout.
  rewrite (int_add_id (X (Min position))), (int_add_id (Y (Min position)))
    by assumption.
  rewrite Hout. rewrite int_mul_id by assumption. rewrite int_add_id by assumption.
  unfold bind, index, panic.
  destruct (Z.ltb_spec (row * Size config + col) 0); [reflexivity|].
  rewrite lookup_ge_None_2 by lia. reflexivity.
Qed.

Lemma RemoveWatermark_loops (e : Engine) (img : Image) (h : Heap) (bounds : Rectangle) :
  valid_image h img bounds ->
  exists copy,
    RemoveWatermark e img h =
      match
        forM_ (seqZ 0 (Size (DetectConfig (Dx bounds) (Dy bounds))))
          (fun row =>
             forM_ (seqZ 0 (Size (DetectConfig (Dx bounds) (Dy bounds))))
               (fun col =>
                  removePixel (length h) (Dx bounds) (Dy bounds)
                    (DetectConfig (Dx bounds) (Dy bounds))
                    (CalculatePosition (Dx bounds) (Dy bounds)
                       (DetectConfig (Dx bounds) (Dy bounds)))
                    (selectedMap e (Dx bounds) (Dy bounds)) row col))
          (h ++ [copy])
      with
      | Some (_, h') => Some (RGBARef (length h), h')
      | None => None
      end.
Proof.
  intros Hv. destruct (Draw_run h img bounds Hv) as (copy & Hdraw & _).
  destruct Hv as [Hb _]. exists copy.
  unfold RemoveWatermark, bind. rewrite Hb. unfold NewRGBA, alloc. rewrite Hdraw.
  change (if Size (DetectConfig (Dx bounds) (Dy bounds)) =? 96
          then alphaMap96 e else alphaMap48 e)
    with (selectedMap e (Dx bounds) (Dy bounds)).
  destruct (forM_ _ _ (h ++ [copy])) as [[[] h']|]; reflexivity.
Qed.

(** X10. [RemoveWatermark] does not check the length of the alpha map
    it selects: on an image that contains the whole watermark rectangle
    it indexes the map up to [Size * Size - 1], and panics when the map
    is shorter. *)
Theorem RemoveWatermark_short_map_panics
    (e : Engine) (img : Image) (h : Heap) (bounds : Rectangle) :
  valid_image h img bounds ->
  Margin (DetectConfig (Dx bounds) (Dy bounds))
    + Size (DetectConfig (Dx bounds) (Dy bounds)) <= Dx bounds ->
  Margin (DetectConfig (Dx bounds) (Dy bounds))
    + Size (DetectConfig (Dx bounds) (Dy bounds)) <= Dy bounds ->
  Z.of_nat (length (selectedMap e (Dx bounds) (Dy bounds)))
    < Size (DetectConfig (Dx bounds) (Dy bounds))
      * Size (DetectConfig (Dx bounds) (Dy bounds)) ->
  RemoveWatermark e img h = None.
Proof.
  intros Hv HfitX HfitY Hshort.
  destruct (RemoveWatermark_loops e img h bounds Hv) as (copy & ->).
  destruct Hv as [_ Hr].
  destruct (valid_rect_dims bounds Hr) as [HW HH].
  pose proof (config_sizes (Dx bounds) (Dy bounds)) as (HM & HS & _).
  pose proof (position_Min (Dx bounds) (Dy bounds) HW HH) as Hmin.
  assert (Hsq : (Size (DetectConfig (Dx bounds) (Dy bounds)) - 1)
                  * Size (DetectConfig (Dx bounds) (Dy bounds))
                + (Size (DetectConfig (Dx bounds) (Dy bounds)) - 1)
                = Size (DetectConfig (Dx bounds) (Dy bounds))
                  * Size (DetectConfig (Dx bounds) (Dy bounds)) - 1) by ring.
  assert (Hbound : Size (DetectConfig (Dx bounds) (Dy bounds))
                   * Size (DetectConfig (Dx bounds) (Dy bounds)) <= 9216) by nia.
  assert (Hpos : 0 < Size (DetectConfig (Dx bounds) (Dy bounds))
                     * Size (DetectConfig (Dx bounds) (Dy bounds))) by nia.
  assert (Hmul : 0 <= (Size (DetectConfig (Dx bounds) (Dy bounds)) - 1)
                      * Size (DetectConfig (Dx bounds) (Dy bounds))) by nia.
  rewrite (seqZ_last (Size (DetectConfig (Dx bounds) (Dy bounds)))) by lia.
  rewrite forM_snoc. destruct (forM_ _ _ (h ++ [copy])) as [[[] h1]|]; [|reflexivity].
  rewrite forM_snoc. destruct (forM_ _ _ h1) as [[[] h2]|]; [|reflexivity].
  rewrite removePixel_panics; [reflexivity | | | | | | ].
  - rewrite Hmin. cbn [X Y]. int_range.
  - rewrite Hmin. cbn [X Y]. int_range.
  - int_range.
  - int_range.
  - rewrite Hmin. cbn [X Y]. unfold outside. bool_cases.
  - lia.
Qed.

Lemma RemoveWatermark_short_map_panics_witness :
  RemoveWatermark (mkEngine [] []) (Other (Rect 0 0 100 100) (fun x y => color.mkColor 0 0 0 0)) []
  = None.
Proof.
  apply (RemoveWatermark_short_map_panics (mkEngine [] []) _ [] (Rect 0 0 100 100)).
  - split; [reflexivity|]. unfold valid_rect, GoInt.in_int. cbn. lia.
  - change (32 + 48 <= 100). lia.
  - change (32 + 48 <= 100). lia.
  - change (0 < 48 * 48). lia.
Defined.


(** ** Alpha maps: what they depend on *)

(** X11. The alpha map depends on the reference image only through the
    brightest of the high bytes of R, G and B of each pixel: the low
    bytes, the two other channels and the alpha channel play no part. *)
Theorem CalculateAlphaMap_brightest_channel_only
    (h1 h2 : Heap) (img1 img2 : Image) (bounds : Rectangle) :
  valid_image h1 img1 bounds -> valid_image h2 img2 bounds ->
  Dx bounds * Dy bounds < 2 ^ 63 ->
  (forall x y, PointIn x y bounds = true ->
     maxRGB (pixelOf h1 img1 x y) = maxRGB (pixelOf h2 img2 x y)) ->
  exists alphaMap,
    CalculateAlphaMap img1 h1 = Some (alphaMap, h1)
    /\ CalculateAlphaMap img2 h2 = Some (alphaMap, h2).
Proof.
  intros Hv1 Hv2 Hfits Hsame.
  destruct (CalculateAlphaMap_run h1 img1 bounds Hv1 Hfits)
    as (am1 & Hrun1 & Hlen1 & Hset1).
  destruct (CalculateAlphaMap_run h2 img2 bounds Hv2 Hfits)
    as (am2 & Hrun2 & Hlen2 & Hset2).
  pose proof (alpha_dims h1 img1 bounds Hv1) as (Hw & Hh & HW & HH).
  assert (Heq : am1 = am2).
  { apply list_eq. intros i.
    destruct (Nat.lt_ge_cases i (length am1)) as [Hi | Hi].
    - destruct (index_split (Z.of_nat i) (Dx bounds) (Dy bounds))
        as (Hr & Hc & Hidx); try lia.
      pose proof (Hset1 _ _ Hc Hr) as E1.
      pose proof (Hset2 _ _ Hc Hr) as E2.
      rewrite <- Hidx, Nat2Z.id in E1, E2.
      rewrite E1, E2. f_equal. f_equal.
      apply Hsame, PointIn_spec. lia.
    - rewrite !lookup_ge_None_2 by lia. reflexivity. }
  subst am2. exists am1. split; assumption.
Qed.

Lemma CalculateAlphaMap_brightest_channel_only_witness :
  exists alphaMap,
    CalculateAlphaMap sampleReference [] = Some (alphaMap, [])
    /\ CalculateAlphaMap tintedReference [] = Some (alphaMap, []).
Proof.
  apply (CalculateAlphaMap_brightest_channel_only [] [] sampleReference tintedReference
           (Rect 0 0 3 2)).
  - split; [reflexivity|]. unfold valid_rect, GoInt.in_int. cbn. lia.
  - split; [reflexivity|]. unfold valid_rect, GoInt.in_int. cbn. lia.
  - change (6 < 2 ^ 63). lia.
  - intros x y Hin. apply PointIn_spec in Hin. cbn in Hin.
    assert (Hx : x = 0 \/ x = 1 \/ x = 2) by lia.
    assert (Hy : y = 0 \/ y = 1) by lia.
    destruct Hx as [-> | [-> | ->]], Hy as [-> | ->]; reflexivity.
Defined.

(** X12. The alpha map of an image without pixels, one with no column
    or no row, is the empty slice, and the call returns. *)
Theorem CalculateAlphaMap_empty_image
    (h : Heap) (img : Image) (bounds : Rectangle) :
  valid_image h img bounds ->
  Dx bounds = 0 \/ Dy bounds = 0 ->
  CalculateAlphaMap img h = Some ([], h).
Proof.
  intros Hv Hzero.
  assert (Hmul : Dx bounds * Dy bounds = 0) by (destruct Hzero as [-> | ->]; lia).
  destruct (CalculateAlphaMap_run h img bounds Hv ltac:(lia))
    as (am & Hrun & Hlen & _).
  rewrite Hrun. destruct am; [reflexivity|]. simpl in Hlen. lia.
Qed.

Lemma CalculateAlphaMap_empty_image_witness :
  CalculateAlphaMap (Other (Rect 5 7 5 20) (fun _ _ => color.mkColor 65535 0 0 65535)) []
  = Some ([], []).
Proof.
  apply (CalculateAlphaMap_empty_image [] _ (Rect 5 7 5 20)).
  - split; [reflexivity|]. unfold valid_rect, GoInt.in_int. cbn. lia.
  - left. reflexivity.
Defined.

(** ** The reverse blend in exact arithmetic *)

Lemma alpha_row_facts (k : Z) :
  0 <= k <= 255 ->
  F32.ltb (alphaOf k) AlphaThreshold = (k =? 0)
  /\ F32.ltb MaxAlpha (alphaOf k) = (253 <=? k)
  /\ 0 <= fst (exactValue (clampAlpha (alphaOf k)))
       < snd (exactValue (clampAlpha (alphaOf k)))
  /\ forall w, 0 <= w <= 255 ->
       reverseBlend (alphaOf k) w = exactBlend (alphaOf k) w.
Proof.
  intros Hk. pose proof (rowChecks_all k Hk) as Hrow.
  unfold rowChecks in Hrow. cbv zeta in Hrow.
  apply andb_true_iff in Hrow as [_ Hrow].
  unfold exactRowChecks in Hrow.
  rewrite !andb_true_iff in Hrow.
  destruct Hrow as ((((H1 & H2) & H3) & H4) & H5).
  apply eqb_prop in H1, H2. apply Z.leb_le in H3. apply Z.ltb_lt in H4.
  split; [exact H1|]. split; [exact H2|]. split; [lia|].
  intros w Hw.
  pose proof (forall_bytes _ H5 w Hw) as E. cbv beta in E.
  apply Z.eqb_eq in E. rewrite <- E.
  rewrite nth_lookup, blendTable_lookup by assumption.
  reflexivity.
Qed.

Section ExactBlend.

Variables n d : Z.
Hypothesis Hfrac : 0 <= n < d.

Lemma blendZ_monotone (w1 w2 : Z) : w1 <= w2 -> blendZ n d w1 <= blendZ n d w2.
Proof.
  intros Hle. unfold blendZ.
  assert (Hnum : w1 * d - 255 * n <= w2 * d - 255 * n) by nia.
  destruct (Z.ltb_spec (w1 * d - 255 * n) 0),
           (Z.ltb_spec (w2 * d - 255 * n) 0); try lia.
  - destruct (Z.ltb_spec (255 * (d - n)) (w2 * d - 255 * n)); [lia|].
    apply Z.div_pos; lia.
  - destruct (Z.ltb_spec (255 * (d - n)) (w1 * d - 255 * n)),
             (Z.ltb_spec (255 * (d - n)) (w2 * d - 255 * n)); try lia.
    + apply Z.div_le_upper_bound; lia.
    + apply Z.div_le_mono; lia.
Qed.

Lemma blendZ_le (w : Z) : 0 <= w <= 255 -> 0 <= blendZ n d w <= w.
Proof.
  intros Hw. unfold blendZ.
  destruct (Z.ltb_spec (w * d - 255 * n) 0); [lia|].
  destruct (Z.ltb_spec (255 * (d - n)) (w * d - 255 * n)); [nia|].
  split; [apply Z.div_pos; lia|].
  apply Z.div_le_upper_bound; [lia|]. nia.
Qed.

Lemma blendZ_white : blendZ n d 255 = 255.
Proof.
  unfold blendZ.
  destruct (Z.ltb_spec (255 * d - 255 * n) 0); [lia|].
  destruct (Z.ltb_spec (255 * (d - n)) (255 * d - 255 * n)); [reflexivity|].
  replace (255 * d - 255 * n) with (255 * (d - n)) by lia.
  apply Z.div_mul. lia.
Qed.

End ExactBlend.

Lemma exactBlend_blendZ (alpha : F32.t) (w : Z) :
  exactBlend alpha w
  = blendZ (fst (exactValue (clampAlpha alpha)))
           (snd (exactValue (clampAlpha alpha))) w.
Proof.
  unfold exactBlend.
  destruct (exactValue (clampAlpha alpha)) as [n d]. reflexivity.
Qed.

Lemma reverseBlend_never_brighter_bound (k w : Z) :
  0 <= k <= 255 -> 0 <= w <= 255 -> reverseBlend (alphaOf k) w <= w.
Proof.
  intros Hk Hw.
  destruct (alpha_row_facts k Hk) as (_ & _ & Hfrac & Hexact).
  rewrite Hexact, exactBlend_blendZ by lia.
  apply blendZ_le; assumption.
Qed.

(** X13. For the alpha values an alpha map holds, those of the 256
    channel bytes, the float64 computation of the reverse blend loses
    nothing: the byte [RemoveWatermark] stores is the floor of the
    exact quotient [(w - 255 a) / (1 - a)] clamped to [[0, 255]], with
    [a] the exact value of the float32 [min(alpha, MaxAlpha)]. *)
Theorem reverseBlend_exact (k w : Z) :
  0 <= k <= 255 -> 0 <= w <= 255 ->
  reverseBlend (alphaOf k) w = exactBlend (alphaOf k) w.
Proof.
  intros Hk Hw. destruct (alpha_row_facts k Hk) as (_ & _ & _ & H). auto.
Qed.

Lemma reverseBlend_exact_witness :
  reverseBlend (alphaOf 128) 200 = exactBlend (alphaOf 128) 200.
Proof. apply (reverseBlend_exact 128 200); lia. Defined.

(** X14. The skip test [alpha < AlphaThreshold] of the inner loop holds
    for exactly one of the 256 alpha values of an alpha map: that of a
    reference pixel which is black in all three channels. *)
Theorem skipped_only_where_reference_is_black (k : Z) :
  0 <= k <= 255 ->
  (F32.ltb (alphaOf k) AlphaThreshold = true <-> k = 0).
Proof.
  intros Hk. destruct (alpha_row_facts k Hk) as (H & _). rewrite H.
  apply Z.eqb_eq.
Qed.

Lemma skipped_only_where_reference_is_black_witness :
  F32.ltb (alphaOf 1) AlphaThreshold = true <-> 1 = 0.
Proof. apply (skipped_only_where_reference_is_black 1). lia. Defined.

(** X15. The cap [alpha > MaxAlpha] of the inner loop applies to exactly
    three of the 256 alpha values of an alpha map: those of reference
    pixels whose brightest channel is 253, 254 or 255. *)
Theorem capped_from_253 (k : Z) :
  0 <= k <= 255 ->
  (F32.ltb MaxAlpha (alphaOf k) = true <-> 253 <= k).
Proof.
  intros Hk. destruct (alpha_row_facts k Hk) as (_ & H & _). rewrite H.
  apply Z.leb_le.
Qed.

Lemma capped_from_253_witness :
  F32.ltb MaxAlpha (alphaOf 252) = true <-> 253 <= 252.
Proof. apply (capped_from_253 252). lia. Defined.

(** X16. For each alpha value of an alpha map the reverse blend is
    monotone in the watermarked channel: a brighter input never gives
    a darker output. *)
Theorem reverseBlend_monotone (k w1 w2 : Z) :
  0 <= k <= 255 -> 0 <= w1 -> w1 <= w2 -> w2 <= 255 ->
  reverseBlend (alphaOf k) w1 <= reverseBlend (alphaOf k) w2.
Proof.
  intros Hk H1 H12 H2.
  destruct (alpha_row_facts k Hk) as (_ & _ & Hfrac & Hexact).
  rewrite !Hexact, !exactBlend_blendZ by lia.
  apply blendZ_monotone; assumption.
Qed.

Lemma reverseBlend_monotone_witness :
  reverseBlend (alphaOf 100) 120 <= reverseBlend (alphaOf 100) 180.
Proof. apply (reverseBlend_monotone 100 120 180); lia. Defined.

(** X17. For each alpha value of an alpha map the reverse blend never
    brightens a channel: the byte stored is at most the byte read, and
    a channel of 255 stays 255. *)
Theorem reverseBlend_never_brighter (k w : Z) :
  0 <= k <= 255 -> 0 <= w <= 255 ->
  reverseBlend (alphaOf k) w <= w
  /\ reverseBlend (alphaOf k) 255 = 255.
Proof.
  intros Hk Hw.
  destruct (alpha_row_facts k Hk) as (_ & _ & Hfrac & Hexact).
  rewrite !Hexact, !exactBlend_blendZ by lia.
  split; [apply blendZ_le; assumption | apply blendZ_white; assumption].
Qed.

Lemma reverseBlend_never_brighter_witness :
  reverseBlend (alphaOf 77) 90 <= 90 /\ reverseBlend (alphaOf 77) 255 = 255.
Proof. apply (reverseBlend_never_brighter 77 90); lia. Defined.

(** ** Whole images *)

(** X18. With an engine whose alpha maps come from reference images,
    [RemoveWatermark] brightens no pixel: in the result every colour
    channel of every pixel is at most the channel of the input, and the
    alpha channel is the input's. *)
Theorem RemoveWatermark_never_brighter
    (e : Engine) (img : Image) (h : Heap) (bounds : Rectangle) :
  wf_engine e -> valid_image h img bounds ->
  (forall row col,
      0 <= row < Size (DetectConfig (Dx bounds) (Dy bounds)) ->
      0 <= col < Size (DetectConfig (Dx bounds) (Dy bounds)) ->
      exists k,
        0 <= k <= 255 /\ alphaAt e (Dx bounds) (Dy bounds) row col = alphaOf k) ->
  exists out,
    RemoveWatermark e img h = Some (RGBARef (length h), h ++ [out])
    /\ forall x y,
        PointIn x y bounds = true ->
        color.R (image.RGBAAt out x y) <= color.R (pixel8 h img x y)
        /\ color.G (image.RGBAAt out x y) <= color.G (pixel8 h img x y)
        /\ color.B (image.RGBAAt out x y) <= color.B (pixel8 h img x y)
        /\ color.A (image.RGBAAt out x y) = color.A (pixel8 h img x y).
Proof.
  intros He Hv Halpha.
  destruct (RemoveWatermark_pixels e img h bounds He Hv)
    as (out & Hrun & _ & _ & Hat).
  exists out. split; [exact Hrun|].
  intros x y Hin. rewrite Hat, Hin. clear Hat Hrun.
  destruct (toRGBA_bytes (pixelOf h img x y)) as (HR & HG & HB & HA).
  fold (pixel8 h img x y) in HR, HG, HB, HA.
  destruct (PointIn x y (watermarkRect bounds)) eqn:Hwm;
    [|cbn [andb]; lia].
  destruct Hv as [_ Hr].
  destruct (watermarkRect_row_col bounds x y Hr Hwm) as (Hrow & Hcol).
  destruct (Halpha _ _ Hrow Hcol) as (k & Hk & ->).
  match goal with
  | |- context [if ?c then _ else _] => destruct c
  end; [|lia].
  unfold restorePixel. cbn [color.R color.G color.B color.A].
  pose proof (reverseBlend_never_brighter_bound k (color.R (pixel8 h img x y)) Hk
                ltac:(lia)).
  pose proof (reverseBlend_never_brighter_bound k (color.G (pixel8 h img x y)) Hk
                ltac:(lia)).
  pose proof (reverseBlend_never_brighter_bound k (color.B (pixel8 h img x y)) Hk
                ltac:(lia)).
  lia.
Qed.

Lemma sampleEngine_alpha (row col : Z) :
  0 <= row < 48 -> 0 <= col < 48 ->
  exists k,
    0 <= k <= 255
    /\ alphaAt sampleEngine (Dx sampleBounds) (Dy sampleBounds) row col = alphaOf k.
Proof.
  intros Hrow Hcol. exists ((row * 48 + col) mod 256). split.
  - pose proof (Z.mod_pos_bound (row * 48 + col) 256 ltac:(lia)). lia.
  - unfold alphaAt.
    change (selectedMap sampleEngine (Dx sampleBounds) (Dy sampleBounds))
      with ((fun i => alphaOf (i mod 256)) <$> seqZ 0 2304).
    change (Size (DetectConfig (Dx sampleBounds) (Dy sampleBounds))) with 48.
    rewrite list_lookup_fmap, lookup_seqZ_lt by lia.
    cbn [fmap option_fmap option_map default]. rewrite Z.add_0_l, Z2Nat.id by lia.
    reflexivity.
Qed.

Lemma RemoveWatermark_never_brighter_witness :
  exists out,
    RemoveWatermark sampleEngine sampleImage [] = Some (RGBARef 0, [out])
    /\ color.R (image.RGBAAt out 10 10) <= color.R (pixel8 [] sampleImage 10 10).
Proof.
  destruct (RemoveWatermark_never_brighter sampleEngine sampleImage [] sampleBounds
              sampleEngine_wf sampleImage_valid sampleEngine_alpha)
    as (out & Hrun & Hall).
  exists out. split; [exact Hrun|].
  exact (proj1 (Hall 10 10 eq_refl)).
Defined.

(** X19. An engine whose selected alpha map stays below
    [AlphaThreshold], as that of a black reference image does, changes
    nothing: the result is a copy of the input, pixel for pixel. *)
Theorem RemoveWatermark_transparent_watermark
    (e : Engine) (img : Image) (h : Heap) (bounds : Rectangle) :
  wf_engine e -> valid_image h img bounds ->
  (forall row col,
      0 <= row < Size (DetectConfig (Dx bounds) (Dy bounds)) ->
      0 <= col < Size (DetectConfig (Dx bounds) (Dy bounds)) ->
      F32.ltb (alphaAt e (Dx bounds) (Dy bounds) row col) AlphaThreshold = true) ->
  exists out,
    RemoveWatermark e img h = Some (RGBARef (length h), h ++ [out])
    /\ forall x y,
        PointIn x y bounds = true ->
        image.RGBAAt out x y = pixel8 h img x y.
Proof.
  intros He Hv Halpha.
  destruct (RemoveWatermark_pixels e img h bounds He Hv)
    as (out & Hrun & _ & _ & Hat).
  exists out. split; [exact Hrun|].
  intros x y Hin. rewrite Hat, Hin. clear Hat Hrun.
  destruct (PointIn x y (watermarkRect bounds)) eqn:Hwm; [|reflexivity].
  destruct Hv as [_ Hr].
  destruct (watermarkRect_row_col bounds x y Hr Hwm) as (Hrow & Hcol).
  rewrite (Halpha _ _ Hrow Hcol).
  rewrite andb_false_r. reflexivity.
Qed.

Lemma blackEngine_wf : wf_engine blackEngine.
Proof.
  unfold wf_engine, blackEngine. cbn [alphaMap48 alphaMap96].
  rewrite !length_replicate, !Z2Nat.id by lia. split; reflexivity.
Qed.

Lemma blackEngine_alpha (row col : Z) :
  0 <= row < 48 -> 0 <= col < 48 ->
  F32.ltb (alphaAt blackEngine (Dx sampleBounds) (Dy sampleBounds) row col)
          AlphaThreshold = true.
Proof.
  intros Hrow Hcol. unfold alphaAt.
  change (selectedMap blackEngine (Dx sampleBounds) (Dy sampleBounds))
    with (replicate (Z.to_nat 2304) (alphaOf 0)).
  change (Size (DetectConfig (Dx sampleBounds) (Dy sampleBounds))) with 48.
  rewrite lookup_replicate_2 by lia. reflexivity.
Qed.

Lemma RemoveWatermark_transparent_watermark_witness :
  exists out,
    RemoveWatermark blackEngine sampleImage [] = Some (RGBARef 0, [out])
    /\ image.RGBAAt out 39 35 = pixel8 [] sampleImage 39 35.
Proof.
  destruct (RemoveWatermark_transparent_watermark blackEngine sampleImage []
              sampleBounds blackEngine_wf sampleImage_valid blackEngine_alpha)
    as (out & Hrun & Hall).
  exists out. split; [exact Hrun|].
  exact (Hall 39 35 eq_refl).
Defined.

(** ** From the reference images to the alpha of a pixel *)

Section EngineAlpha.

Variable bg48PNG bg96PNG : list Z.
Variable png_Decode : list Z -> Image + error.

(** X20. The engine [NewEngine] builds from assets of 48 by 48 and 96
    by 96 pixels gives to the watermark pixel [(row, col)] of an image
    the alpha of the reference pixel in column [col] and row [row] of
    the asset whose side is the watermark size of the image: the
    brightest channel byte of that pixel over 255. *)
Theorem NewEngine_alpha_of_reference_pixel
    (h : Heap) (img48 img96 : Image) (b48 b96 : Rectangle) :
  png_Decode bg48PNG = inl img48 -> png_Decode bg96PNG = inl img96 ->
  valid_image h img48 b48 -> valid_image h img96 b96 ->
  Dx b48 = 48 -> Dy b48 = 48 -> Dx b96 = 96 -> Dy b96 = 96 ->
  exists e,
    NewEngine bg48PNG bg96PNG png_Decode h = Some (inl e, h)
    /\ forall width height row col,
        0 <= row < Size (DetectConfig width height) ->
        0 <= col < Size (DetectConfig width height) ->
        alphaAt e width height row col
        = if Size (DetectConfig width height) =? 96
          then alphaOf (maxRGB (pixelOf h img96 (X (Min b96) + col) (Y (Min b96) + row)))
          else alphaOf (maxRGB (pixelOf h img48 (X (Min b48) + col) (Y (Min b48) + row))).
Proof.
  intros H48 H96 Hv48 Hv96 Hw48 Hh48 Hw96 Hh96.
  destruct (CalculateAlphaMap_run h img48 b48 Hv48) as (am48 & Hrun48 & _ & Hset48).
  { rewrite Hw48, Hh48. lia. }
  destruct (CalculateAlphaMap_run h img96 b96 Hv96) as (am96 & Hrun96 & _ & Hset96).
  { rewrite Hw96, Hh96. lia. }
  exists (mkEngine am48 am96). split.
  - unfold NewEngine. rewrite LoadReferenceImage_48, H48. unfold bind.
    rewrite Hrun48, LoadReferenceImage_96, H96, Hrun96. reflexivity.
  - intros width height row col Hrow Hcol. unfold alphaAt, selectedMap.
    cbn [alphaMap48 alphaMap96].
    destruct (DetectConfig_cases width height) as [E | E]; rewrite E in *;
      cbn [Size] in *.
    + change (96 =? 96) with true. cbv iota.
      rewrite <- Hw96 at 1. rewrite Hset96 by lia. reflexivity.
    + change (48 =? 96) with false. cbv iota.
      rewrite <- Hw48 at 1. rewrite Hset48 by lia. reflexivity.
Qed.

End EngineAlpha.

Lemma NewEngine_alpha_of_reference_pixel_witness :
  exists e,
    NewEngine [3] [5] rampDecode [] = Some (inl e, [])
    /\ alphaAt e 2000 1500 2 70 = alphaOf 70.
Proof.
  destruct (NewEngine_alpha_of_reference_pixel [3] [5] rampDecode []
              (rampImage 48) (rampImage 96)
              (Rect 0 0 48 48) (Rect 0 0 96 96) eq_refl eq_refl)
    as (e & Hrun & Hall); try reflexivity.
  - split; [reflexivity|]. unfold valid_rect, GoInt.in_int. cbn. lia.
  - split; [reflexivity|]. unfold valid_rect, GoInt.in_int. cbn. lia.
  - exists e. split; [exact Hrun|].
    rewrite (Hall 2000 1500 2 70) by (change (Size (DetectConfig 2000 1500)) with 96; lia).
    reflexivity.
Defined.
